(** * kubevalidator: the validation-and-localization pipeline

    A shallow embedding of [validator/candidate.go] (Candidate.Validate,
    detectLineNumbersDefault, resultErrorDetailString,
    abbreviatedErrorFormat) and of the report aggregation in
    [createFinalCheckRun], followed by the properties of the
    specification that concern them. The source file of the Candidate
    carries an earlier revision of the package after the current one;
    the embedding follows the current one.

    Go values are modelled as follows: [string] and [[]byte] are Rocq
    strings (sequences of bytes), [int] is [Z], [int32] is [Z] with the
    wrap-around of its addition written out, a nil-able pointer is an
    [option], a Go map is a [gmap] together with the order in which a
    [range] loop happens to visit it, and a run-time panic is [None]. *)

From Stdlib Require Import ZArith String Ascii List Lia.
From Stdlib Require Import Sorting.Sorted Structures.OrdersEx.
From stdpp Require Import base option list sorting gmap strings pretty.

Local Open Scope string_scope.
Local Open Scope Z_scope.

(** ** The parts of Go's [strings] package the code uses *)

Module strings.

(** [cutPrefix s p] is the rest of [s] after the prefix [p], if [s]
    starts with [p]. *)
Fixpoint cutPrefix (s p : string) : option string :=
  match p with
  | EmptyString => Some s
  | String c p' =>
      match s with
      | EmptyString => None
      | String d s' => if Ascii.eqb c d then cutPrefix s' p' else None
      end
  end.

Definition HasPrefix (s p : string) : bool :=
  match cutPrefix s p with Some _ => true | None => false end.

Definition TrimPrefix (s p : string) : string :=
  match cutPrefix s p with Some rest => rest | None => s end.

(** [Replace s old new (-1)] for a non-empty [old]: every
    non-overlapping occurrence of [old], from the left, becomes [new].
    [skip] counts the bytes of an occurrence still to be passed over. *)
Fixpoint replaceFrom (skip : nat) (s old new : string) : string :=
  match s with
  | EmptyString => EmptyString
  | String c s' =>
      match skip with
      | S k => replaceFrom k s' old new
      | O =>
          if HasPrefix s old
          then new ++ replaceFrom (Nat.pred (String.length old)) s' old new
          else String c (replaceFrom O s' old new)
      end
  end.

Definition ReplaceAll (s old new : string) : string :=
  replaceFrom O s old new.

(** [Split s sep] for a non-empty [sep]: the pieces of [s] between the
    non-overlapping occurrences of [sep]; always at least one piece.
    [cur] is the piece being read. *)
Fixpoint splitFrom (skip : nat) (cur s sep : string) : list string :=
  match s with
  | EmptyString => [cur]
  | String c s' =>
      match skip with
      | S k => splitFrom k cur s' sep
      | O =>
          if HasPrefix s sep
          then cur :: splitFrom (Nat.pred (String.length sep)) EmptyString s' sep
          else splitFrom O (cur ++ String c EmptyString) s' sep
      end
  end.

Definition Split (s sep : string) : list string :=
  splitFrom O EmptyString s sep.

Fixpoint Join (elems : list string) (sep : string) : string :=
  match elems with
  | [] => EmptyString
  | [x] => x
  | x :: rest => x ++ sep ++ Join rest sep
  end.

Fixpoint Contains (s substr : string) : bool :=
  HasPrefix s substr ||
  match s with
  | EmptyString => false
  | String _ s' => Contains s' substr
  end.

End strings.

(** ** [bufio.Scanner] with the default line splitter *)

Module bufio.

(** A token longer than this stops the scan ([bufio.ErrTooLong]). *)
Definition MaxScanTokenSize : Z := 65536.

Definition newline : ascii := Ascii.ascii_of_nat 10.
Definition carriageReturn : ascii := Ascii.ascii_of_nat 13.

(** The lines of [data] as [ScanLines] cuts them: each ends at a
    newline, which is dropped; what follows the last newline is a line
    only when it is not empty. *)
Fixpoint rawLines (cur data : string) : list string :=
  match data with
  | EmptyString => if decide (cur = EmptyString) then [] else [cur]
  | String c rest =>
      if Ascii.eqb c newline
      then cur :: rawLines EmptyString rest
      else rawLines (cur ++ String c EmptyString) rest
  end.

(** [dropCR]: one trailing carriage return is removed. *)
Fixpoint dropCR (l : string) : string :=
  match l with
  | EmptyString => EmptyString
  | String c EmptyString =>
      if Ascii.eqb c carriageReturn then EmptyString else l
  | String c rest => String c (dropCR rest)
  end.

Definition fits (l : string) : bool :=
  Z.of_nat (String.length l) <? MaxScanTokenSize.

(** The tokens successive calls of [Scan] deliver, and whether the
    scan ended with an error. *)
Fixpoint deliver (ls : list string) : list string * bool :=
  match ls with
  | [] => ([], false)
  | l :: rest =>
      if fits l
      then let '(ts, err) := deliver rest in (dropCR l :: ts, err)
      else ([], true)
  end.

Definition Scan (data : string) : list string * bool :=
  deliver (rawLines EmptyString data).

End bufio.

(** ** The collaborators' data *)

Module difflib.

(** [SplitLines]: the text cut after every newline, with a newline added
    to the last piece. *)
Fixpoint splitLinesFrom (cur s : string) : list string :=
  match s with
  | EmptyString => [cur ++ String bufio.newline EmptyString]
  | String c rest =>
      if Ascii.eqb c bufio.newline
      then (cur ++ String c EmptyString) :: splitLinesFrom EmptyString rest
      else splitLinesFrom (cur ++ String c EmptyString) rest
  end.

Definition SplitLines (s : string) : list string :=
  splitLinesFrom EmptyString s.

(** [UnifiedDiff], the request for a diff. *)
Record UnifiedDiff := {
  A : list string;
  B : list string;
  FromFile : string;
  ToFile : string;
  Context : Z
}.

End difflib.

(** A hunk of [go-diff]; its four numbers are [int32]. *)
Record Hunk := {
  OrigStartLine : Z;
  OrigLines : Z;
  NewStartLine : Z;
  NewLines : Z;
  Body : string
}.

Record FileDiff := { Hunks : list Hunk }.

(** Addition of two [int32]. *)
Definition add32 (x y : Z) : Z :=
  (x + y + 2 ^ 31) mod 2 ^ 32 - 2 ^ 31.

(** One operation of a [yamlpatch.Patch]. *)
Record Operation := {
  Op : string;
  Path : string;
  Value : string
}.

(** A value of the detail mapping of a violation, an [interface{}]. *)
Inductive DetailValue :=
| DetailString (s : string)
| DetailInt (n : Z).

(** A [gojsonschema.ResultError], seen through the four methods the code
    calls: [Context().String()], [Type()], [String()], [Details()]. *)
Record ResultError := {
  ContextString : string;
  Type_ : string;
  String_ : string;
  Details : gmap string DetailValue
}.

(** A [kubeval.ValidationResult]. *)
Record ValidationResult := {
  FileName : string;
  Kind : string;
  APIVersion : string;
  Errors : list ResultError
}.

(** A Go [error]: a plain one, or a [multierror.Error] over the messages
    of the errors it collects. *)
Inductive error :=
| errorString (msg : string)
| multiError (es : list string).

(** The package-level variables of [kubeval] the code assigns. *)
Record KubevalGlobals := {
  kubeval_SchemaLocation : string;
  kubeval_Version : string;
  kubeval_Strict : bool;
  kubeval_OpenShift : bool
}.

(** [KubeValidatorConfigSchema], with the fields the code reads. *)
Record KubeValidatorConfigSchema := {
  Name : string;
  Version : string;
  SchemaFork : string;
  ConfigType : string;
  LineNumbers : bool
}.

(** [github.CommitFile]: both fields are pointers to strings. *)
Record CommitFile := {
  Filename : option string;
  BlobURL : option string
}.

Definition GetFilename (f : CommitFile) : string :=
  match Filename f with Some s => s | None => EmptyString end.

Definition GetBlobURL (f : CommitFile) : string :=
  match BlobURL f with Some s => s | None => EmptyString end.

(** [github.CheckRunAnnotation]: every field is a pointer. *)
Record CheckRunAnnotation := {
  AnnPath : option string;
  BlobHRef : option string;
  StartLine : option Z;
  EndLine : option Z;
  AnnotationLevel : option string;
  Title : option string;
  Message : option string;
  RawDetails : option string
}.

Abbreviation Annotations := (list CheckRunAnnotation).

(** A Candidate; [bytes] is a pointer, nil until the file is loaded. *)
Record Candidate := {
  bytes : option string;
  file : CommitFile;
  schemas : list KubeValidatorConfigSchema
}.

Definition placeholderString : string :=
  "AAA___KUBEVALIDATOR___PLACEHOLDER___AAA".

Definition defaultSchema : KubeValidatorConfigSchema :=
  {| Name := ""; Version := "master"; SchemaFork := "garethr";
     ConfigType := "kubernetes"; LineNumbers := false |}.

Definition NewCandidate (f : CommitFile)
    (schemas : list KubeValidatorConfigSchema) : Candidate :=
  let schemas :=
    if decide (length schemas = 0%nat) then (schemas ++ [defaultSchema])%list
    else schemas in
  {| bytes := None; file := f; schemas := schemas |}.

Definition setBytes (c : Candidate) (b : option string) : Candidate :=
  {| bytes := b; file := file c; schemas := schemas c |}.

Definition MarkdownListItem (c : Candidate) : string :=
  "* [`./" ++ GetFilename (file c) ++ "`](" ++ GetBlobURL (file c) ++ ")".

(** ** Formatting *)

Definition nl : string := String bufio.newline EmptyString.
Definition tab : string := String (Ascii.ascii_of_nat 9) EmptyString.

(** [%d] of an [int]. *)
Definition fmt_d (n : Z) : string := pretty n.

(** [%s] of a detail value: a string prints as it is, an integer prints
    as the bad-verb notice of [fmt]. *)
Definition fmt_s (v : option DetailValue) : string :=
  match v with
  | Some (DetailString s) => s
  | Some (DetailInt n) => "%!s(int=" ++ pretty n ++ ")"
  | None => "%!s(<nil>)"
  end.

(** Like ListFormatFunc but shorter *)
Definition abbreviatedErrorFormat (es : list string) : string :=
  match es with
  | [e] => e
  | _ => strings.Join (map (fun e => "* " ++ e) es) (nl ++ tab)
  end.

(** [err.Error()], once Validate has installed [abbreviatedErrorFormat]
    in a [multierror.Error]. *)
Definition errorText (err : error) : string :=
  match err with
  | errorString msg => msg
  | multiError es => abbreviatedErrorFormat es
  end.

(** ** [sort.Strings] *)

Definition string_le (x y : string) : Prop := String.leb x y = true.

Global Instance string_le_dec x y : Decision (string_le x y).
Proof. unfold string_le. apply _. Defined.

Definition sort_Strings (keys : list string) : list string :=
  merge_sort string_le keys.

(** ** What the code calls but does not define *)

Record Collaborators := {
  (** the method [SchemaLocation()] of a schema spec *)
  SchemaLocation : KubeValidatorConfigSchema -> string;
  (** [kubeval.Validate(bytes, filename)], which reads the package
      variables *)
  kubeval_Validate :
    KubevalGlobals -> string -> string ->
    list ValidationResult * option error;
  (** [patch.Apply(bytes)]; [None] when it returns an error *)
  yamlpatch_Apply : list Operation -> string -> option string;
  (** [difflib.GetUnifiedDiffString] *)
  GetUnifiedDiffString : difflib.UnifiedDiff -> option string;
  (** [diff.ParseFileDiff] *)
  ParseFileDiff : string -> option FileDiff;
  (** [strings.ToLower] *)
  ToLower : string -> string;
  (** [fmt.Sprintf("%+v", c)] of a Candidate *)
  formatCandidate : Candidate -> string;
  (** [sort.Sort] on [Annotations] *)
  sortAnnotations : Annotations -> Annotations;
  (** the order in which [range] visits the keys of a detail mapping *)
  rangeKeys : gmap string DetailValue -> list string
}.

(** A [range] over a map visits every key once, in some order. *)
Definition rangeVisitsKeys (E : Collaborators) : Prop :=
  forall m, rangeKeys E m ≡ₚ (map_to_list m).*1.

(** [sort.Sort] rearranges; it neither drops nor invents an element. *)
Definition sortRearranges (E : Collaborators) : Prop :=
  forall l, sortAnnotations E l ≡ₚ l.

(** ** The Line Localizer *)

(** The scanner loop over one hunk body: the line counter and whether
    the placeholder was seen. *)
Fixpoint scanLoop (tokens : list string) (line : Z) (found : bool) : Z * bool :=
  match tokens with
  | [] => (line, found)
  | text :: rest =>
      if strings.Contains text placeholderString
      then scanLoop rest line true
      else scanLoop rest (line + 1) found
  end.

Fixpoint rangeHunks (hunks : list Hunk) : Z * Z :=
  match hunks with
  | [] => (1, 1)
  | hunk :: rest =>
      let '(tokens, _) := bufio.Scan (Body hunk) in
      let '(_, found) := scanLoop tokens 1 false in
      if found
      then
        let startLine := NewStartLine hunk in
        let endLine := add32 (NewStartLine hunk) (NewLines hunk) in
        (startLine, endLine)
      else rangeHunks rest
  end.

(** The pointer path the patch addresses. *)
Definition pointerPath (e : ResultError) : string :=
  let rootContext := strings.TrimPrefix (ContextString e) "(root)." in
  let dotted := "." ++ rootContext in
  strings.ReplaceAll dotted "." "/".

Definition detectLineNumbersDefault (E : Collaborators)
    (b : string) (e : ResultError) : Z * Z :=
  let path := pointerPath e in
  let operation :=
    {| Op := "replace"; Path := path; Value := placeholderString |} in
  let patch := [operation] in
  match yamlpatch_Apply E patch b with
  | None => (1, 1)
  | Some patchedBytes =>
      let difflibDiff :=
        {| difflib.A := difflib.SplitLines b;
           difflib.B := difflib.SplitLines patchedBytes;
           difflib.FromFile := "Original";
           difflib.ToFile := "Current";
           difflib.Context := 0 |} in
      match GetUnifiedDiffString E difflibDiff with
      | None => (1, 1)
      | Some unifiedDiffString =>
          match ParseFileDiff E unifiedDiffString with
          | None => (1, 1)
          | Some fileDiff => rangeHunks (Hunks fileDiff)
          end
      end
  end.

(** ** The detail text *)

Definition resultErrorDetailString (E : Collaborators) (e : ResultError) : string :=
  let details := Details e in
  let keys := rangeKeys E details in
  let keys := sort_Strings keys in
  fold_left
    (fun buffer k => buffer ++ ("* " ++ k ++ ": " ++ fmt_s (details !! k) ++ nl))
    keys EmptyString.

(** ** Candidate.Validate *)

(** [a[i], a[opp] = a[opp], a[i]]; both indices are inside the slice
    wherever the code swaps. *)
Definition swap (a : list string) (i opp : nat) : list string :=
  match a !! i, a !! opp with
  | Some x, Some y => <[opp := x]> (<[i := y]> a)
  | _, _ => a
  end.

(** The loop [for i := len(a)/2 - 1; i >= 0; i--], entered with
    [k = i + 1]. *)
Fixpoint reverseLoop (k : nat) (a : list string) : list string :=
  match k with
  | O => a
  | S i => reverseLoop i (swap a i (length a - 1 - i))
  end.

Definition reverseSlice (a : list string) : list string :=
  reverseLoop (length a / 2) a.

(** [versionComponents[:2]]: the slice [Split] returns has no spare
    capacity, so the expression panics on fewer than two components. *)
Definition firstTwo (a : list string) : option (list string) :=
  if decide (2 <= length a)%nat then Some (take 2 a) else None.

Definition docsLink : string :=
  "https://kubernetes.io/docs/reference/generated/kubernetes-api/v".

(** The message of a violation annotation. *)
Definition violationMessage (E : Collaborators)
    (schema : KubeValidatorConfigSchema) (result : ValidationResult)
    (e : ResultError) : option string :=
  if decide (Version schema = "" \/ Version schema = "master")
  then Some (String_ e)
  else
    let versionComponents := strings.Split (Version schema) "." in
    let apiVersionComponents := strings.Split (APIVersion result) "/" in
    let apiVersionComponents := reverseSlice apiVersionComponents in
    let apiVersionString := strings.Join apiVersionComponents "-" in
    match firstTwo versionComponents with
    | None => None
    | Some two =>
        Some (String_ e ++ "; see " ++ docsLink ++ strings.Join two "." ++
              "/#" ++ ToLower E (Kind result) ++ "-" ++ apiVersionString ++
              " for more details")
    end.

(** The display name of a schema spec. *)
Definition schemaNameOf (schema : KubeValidatorConfigSchema) : string :=
  if decide (Name schema <> "") then Name schema
  else if decide (Version schema <> "") then Version schema
  else "master".

(** The line range of a violation annotation. *)
Definition violationLines (E : Collaborators)
    (schema : KubeValidatorConfigSchema) (b : string) (e : ResultError) : Z * Z :=
  if LineNumbers schema then detectLineNumbersDefault E b e else (1, 1).

(** The annotation of one violation, the body of the inner loop. *)
Definition violationAnnotation (E : Collaborators) (c : Candidate) (b : string)
    (schema : KubeValidatorConfigSchema) (schemaName : string)
    (result : ValidationResult) (e : ResultError) : option CheckRunAnnotation :=
  let '(startLine, endLine) := violationLines E schema b e in
  match violationMessage E schema result e with
  | None => None
  | Some message =>
      Some {| AnnPath := Filename (file c);
              BlobHRef := BlobURL (file c);
              StartLine := Some startLine;
              EndLine := Some endLine;
              AnnotationLevel := Some "failure";
              Title := Some ("Error validating " ++ Kind result ++ " against " ++
                             schemaName ++ " schema");
              Message := Some message;
              RawDetails := Some (resultErrorDetailString E e) |}
  end.

Fixpoint rangeErrors (E : Collaborators) (c : Candidate) (b : string)
    (schema : KubeValidatorConfigSchema) (schemaName : string)
    (result : ValidationResult) (errors : list ResultError)
    (annotations : Annotations) : option Annotations :=
  match errors with
  | [] => Some annotations
  | e :: rest =>
      match violationAnnotation E c b schema schemaName result e with
      | None => None
      | Some a =>
          rangeErrors E c b schema schemaName result rest (annotations ++ [a])%list
      end
  end.

Fixpoint rangeResults (E : Collaborators) (c : Candidate) (b : string)
    (schema : KubeValidatorConfigSchema) (schemaName : string)
    (results : list ValidationResult)
    (annotations : Annotations) : option Annotations :=
  match results with
  | [] => Some annotations
  | result :: rest =>
      match rangeErrors E c b schema schemaName result (Errors result) annotations with
      | None => None
      | Some annotations => rangeResults E c b schema schemaName rest annotations
      end
  end.

(** The assignments to the package variables of [kubeval] that open an
    iteration. *)
Definition configure (E : Collaborators) (g : KubevalGlobals)
    (schema : KubeValidatorConfigSchema) : KubevalGlobals :=
  {| kubeval_SchemaLocation := SchemaLocation E schema;
     kubeval_Version :=
       if decide (Version schema <> "") then Version schema else kubeval_Version g;
     kubeval_Strict := true;
     kubeval_OpenShift :=
       if decide (ConfigType schema = "openstack") then true else false |}.

Definition noBytesAnnotation (E : Collaborators) (c : Candidate) : CheckRunAnnotation :=
  {| AnnPath := Filename (file c);
     BlobHRef := BlobURL (file c);
     StartLine := Some 1;
     EndLine := Some 1;
     AnnotationLevel := Some "failure";
     Title := Some "Candidate has no bytes?";
     Message := Some (formatCandidate E c);
     RawDetails := None |}.

Definition internalErrorAnnotation (E : Collaborators) (c : Candidate)
    (schema : KubeValidatorConfigSchema) (schemaName : string)
    (results : list ValidationResult) (err : error) : CheckRunAnnotation :=
  let '(title, message) :=
    match results with
    | first :: _ =>
        ("Internal error when validating " ++ Kind first ++ " against " ++
           schemaName ++ " schemas from " ++ SchemaLocation E schema,
         "This may indicate an incorrect 'apiVersion' or 'kind' field, a missing upstream schema version, or an intermittent error. Details:" ++
           nl ++ nl ++ errorText err)
    | [] =>
        ("Internal error when validating against " ++ schemaName ++
           " schemas from " ++ SchemaLocation E schema,
         errorText err)
    end in
  {| AnnPath := Filename (file c);
     BlobHRef := BlobURL (file c);
     StartLine := Some 1;
     EndLine := Some 1;
     AnnotationLevel := Some "failure";
     Title := Some title;
     Message := Some message;
     RawDetails := None |}.

(** What an iteration does with the answer of the validator. *)
Definition annotateOutcome (E : Collaborators) (c : Candidate) (b : string)
    (schema : KubeValidatorConfigSchema) (schemaName : string)
    (outcome : list ValidationResult * option error)
    (annotations : Annotations) : option Annotations :=
  let '(results, err) := outcome in
  match err with
  | Some err =>
      Some (annotations ++
            [internalErrorAnnotation E c schema schemaName results err])%list
  | None => rangeResults E c b schema schemaName results annotations
  end.

(** One iteration of the loop over the schema specs: the package
    variables it leaves and the annotations it has appended. *)
Definition validateSchema (E : Collaborators) (c : Candidate)
    (g : KubevalGlobals) (schema : KubeValidatorConfigSchema)
    (annotations : Annotations) : KubevalGlobals * option Annotations :=
  let g := configure E g schema in
  let schemaName := schemaNameOf schema in
  match bytes c with
  | None => (g, Some (annotations ++ [noBytesAnnotation E c])%list)
  | Some b =>
      let outcome := kubeval_Validate E g b (GetFilename (file c)) in
      (g, annotateOutcome E c b schema schemaName outcome annotations)
  end.

(** An iteration behind its assignments to the package variables: the
    call of the validator, which reads them as they are then, and the
    annotations it leads to. *)
Definition callAndAnnotate (E : Collaborators) (c : Candidate)
    (g : KubevalGlobals) (schema : KubeValidatorConfigSchema)
    (annotations : Annotations) : option Annotations :=
  let schemaName := schemaNameOf schema in
  match bytes c with
  | None => Some (annotations ++ [noBytesAnnotation E c])%list
  | Some b =>
      let outcome := kubeval_Validate E g b (GetFilename (file c)) in
      annotateOutcome E c b schema schemaName outcome annotations
  end.

Fixpoint rangeSchemas (E : Collaborators) (c : Candidate)
    (g : KubevalGlobals) (schemas : list KubeValidatorConfigSchema)
    (annotations : Annotations) : KubevalGlobals * option Annotations :=
  match schemas with
  | [] => (g, Some annotations)
  | schema :: rest =>
      match validateSchema E c g schema annotations with
      | (g, None) => (g, None)
      | (g, Some annotations) => rangeSchemas E c g rest annotations
      end
  end.

(** Validate bytes with kubeval and return an array of
    CheckRunAnnotation; with them, the package variables as the run
    leaves them. *)
Definition Validate (E : Collaborators) (g : KubevalGlobals) (c : Candidate)
    : KubevalGlobals * option Annotations :=
  let '(g, annotations) := rangeSchemas E c g (schemas c) [] in
  (g, sortAnnotations E <$> annotations).

(** The package variables under which each call of [kubeval.Validate] of
    a run is made, in order. *)
Fixpoint validatorCalls (E : Collaborators) (c : Candidate)
    (g : KubevalGlobals) (schemas : list KubeValidatorConfigSchema)
    (annotations : Annotations) : list KubevalGlobals :=
  match schemas with
  | [] => []
  | schema :: rest =>
      let called :=
        match bytes c with None => [] | Some _ => [configure E g schema] end in
      match validateSchema E c g schema annotations with
      | (g, None) => called
      | (g, Some annotations) => (called ++ validatorCalls E c g rest annotations)%list
      end
  end.

(** ** The final report *)

Definition noMatchingFiles : string := "No files to validate".
Definition configFileName : string := ".github/kubevalidator.yaml".

(** What [createFinalCheckRun] needs of the event. *)
Record CheckSuiteEvent := {
  ownerLogin : string;
  repoName : string;
  headSHA : string
}.

(** The conclusion and the output of the check run
    [createFinalCheckRun] submits. *)
Record CheckRun := {
  Conclusion : string;
  OutputTitle : string;
  OutputSummary : string;
  OutputAnnotations : Annotations
}.

(** [candidates] is a map from file names; [visited] is the order in
    which the [range] over it visits the Candidates. *)
Definition createFinalCheckRun (e : CheckSuiteEvent)
    (candidates : gmap string Candidate) (visited : list Candidate)
    (annotations : Annotations) : CheckRun :=
  let numFiles := Z.of_nat (size candidates) in
  let numAnnotations := Z.of_nat (length annotations) in
  if decide (numFiles = 0)
  then
    let configURL :=
      "https://github.com/" ++ ownerLogin e ++ "/" ++ repoName e ++ "/blob/" ++
      headSHA e ++ "/" ++ configFileName in
    {| Conclusion := "neutral";
       OutputTitle := noMatchingFiles;
       OutputSummary :=
         "To save CPU resources, kubevalidator only validates changes to files that a) are associated with an open Pull Request and b) match the configuration in [`" ++
         configFileName ++ "`](" ++ configURL ++ ").";
       OutputAnnotations := annotations |}
  else
    let filesString := if decide (numFiles = 1) then "file" else "files" in
    let errorsString := if decide (numAnnotations = 1) then "error" else "errors" in
    let checkRunConclusion :=
      if decide (numAnnotations > 0) then "failure" else "success" in
    let checkRunText :=
      fmt_d numFiles ++ " " ++ filesString ++ " checked, " ++
      fmt_d numAnnotations ++ " " ++ errorsString in
    let list := map MarkdownListItem visited in
    {| Conclusion := checkRunConclusion;
       OutputTitle := checkRunText;
       OutputSummary := strings.Join list nl;
       OutputAnnotations := annotations |}.

(** ** Replacing the order of a [range] *)

Definition withRangeKeys (E : Collaborators)
    (order : gmap string DetailValue -> list string) : Collaborators :=
  {| SchemaLocation := SchemaLocation E;
     kubeval_Validate := kubeval_Validate E;
     yamlpatch_Apply := yamlpatch_Apply E;
     GetUnifiedDiffString := GetUnifiedDiffString E;
     ParseFileDiff := ParseFileDiff E;
     ToLower := ToLower E;
     formatCandidate := formatCandidate E;
     sortAnnotations := sortAnnotations E;
     rangeKeys := order |}.

(** The results the validator returns to a run, call after call. *)
Definition validatorResults (E : Collaborators) (g : KubevalGlobals)
    (c : Candidate) : list (list ValidationResult * option error) :=
  match bytes c with
  | None => []
  | Some b =>
      map (fun g => kubeval_Validate E g b (GetFilename (file c)))
          (validatorCalls E c g (schemas c) [])
  end.

(** ** The wording of the specification, for comparison *)

(** The bullet list of the detail mapping over a list of keys. *)
Definition bulletList (details : gmap string DetailValue)
    (keys : list string) : string :=
  foldr (fun k rest => "* " ++ k ++ ": " ++ fmt_s (details !! k) ++ nl ++ rest)
        EmptyString keys.

(** Keys in strictly ascending byte-wise lexicographic order. *)
Definition string_lt (x y : string) : Prop := String.ltb x y = true.

Definition ascending (keys : list string) : Prop :=
  StronglySorted string_lt keys.

(** The deep link into the generated API reference: the first two
    components of the version, the lowered kind, and the segments of the
    apiVersion in reverse, joined by dashes. *)
Definition deepLink (E : Collaborators) (version kind apiVersion : string) : string :=
  docsLink ++ strings.Join (take 2 (strings.Split version ".")) "." ++
  "/#" ++ ToLower E kind ++ "-" ++
  strings.Join (reverse (strings.Split apiVersion "/")) "-".

(** A schema spec whose version is unset, [master], or of two components
    or more lets every message be built. *)
Definition versionUsable (schema : KubeValidatorConfigSchema) : Prop :=
  Version schema = "" \/ Version schema = "master" \/
  (2 <= length (strings.Split (Version schema) "."))%nat.

(** The title of the report for [n] files and [m] errors. *)
Definition pluralTitle (n m : Z) : string :=
  fmt_d n ++ (if decide (n = 1) then " file" else " files") ++ " checked, " ++
  fmt_d m ++ (if decide (m = 1) then " error" else " errors").

Definition lineRangeIs (s e : Z) (a : CheckRunAnnotation) : Prop :=
  StartLine a = Some s /\ EndLine a = Some e.

(** Some line of the hunk, as the scanner delivers it, holds the
    placeholder. *)
Definition hunkHasPlaceholder (h : Hunk) : Prop :=
  Exists (fun text => strings.Contains text placeholderString = true)
         (bufio.Scan (Body h)).1.

(** The patch and the diff request of the Line Localizer. *)
Definition sentinelPatch (e : ResultError) : list Operation :=
  [{| Op := "replace"; Path := pointerPath e; Value := placeholderString |}].

Definition diffRequest (b patchedBytes : string) : difflib.UnifiedDiff :=
  {| difflib.A := difflib.SplitLines b;
     difflib.B := difflib.SplitLines patchedBytes;
     difflib.FromFile := "Original";
     difflib.ToFile := "Current";
     difflib.Context := 0 |}.

(** The ways localization gives up. *)
Inductive localizationFails (E : Collaborators) (b : string) (e : ResultError) : Prop :=
| patchFails :
    yamlpatch_Apply E (sentinelPatch e) b = None ->
    localizationFails E b e
| diffFails patchedBytes :
    yamlpatch_Apply E (sentinelPatch e) b = Some patchedBytes ->
    GetUnifiedDiffString E (diffRequest b patchedBytes) = None ->
    localizationFails E b e
| parseFails patchedBytes unifiedDiffString :
    yamlpatch_Apply E (sentinelPatch e) b = Some patchedBytes ->
    GetUnifiedDiffString E (diffRequest b patchedBytes) = Some unifiedDiffString ->
    ParseFileDiff E unifiedDiffString = None ->
    localizationFails E b e
| placeholderMissing patchedBytes unifiedDiffString fileDiff :
    yamlpatch_Apply E (sentinelPatch e) b = Some patchedBytes ->
    GetUnifiedDiffString E (diffRequest b patchedBytes) = Some unifiedDiffString ->
    ParseFileDiff E unifiedDiffString = Some fileDiff ->
    Forall (fun h => ~ hunkHasPlaceholder h) (Hunks fileDiff) ->
    localizationFails E b e.

(** The replace at [/spec/replicas] changes line 4 and nothing else: the
    diff without context is the single hunk [@@ -4 +4 @@], one line
    taken out and one line, with the placeholder, put in. *)
Definition replicasOnLine4 (E : Collaborators) (b : string) (e : ResultError) : Prop :=
  pointerPath e = "/spec/replicas" /\
  exists patchedBytes unifiedDiffString hunk,
    yamlpatch_Apply E (sentinelPatch e) b = Some patchedBytes /\
    GetUnifiedDiffString E (diffRequest b patchedBytes) = Some unifiedDiffString /\
    ParseFileDiff E unifiedDiffString = Some {| Hunks := [hunk] |} /\
    OrigStartLine hunk = 4 /\ OrigLines hunk = 1 /\
    NewStartLine hunk = 4 /\ NewLines hunk = 1 /\
    hunkHasPlaceholder hunk.

(** ** A worked scenario

    A Deployment whose [replicas], on line 4, is a string; the values
    the collaborators return for it. *)

Module Scenario.

Definition dq : string := String (Ascii.ascii_of_nat 34) EmptyString.

Definition line4 : string := "  replicas: " ++ dq ++ "not-a-number" ++ dq.
Definition line4Patched : string := "  replicas: " ++ placeholderString.

Definition document : string :=
  "apiVersion: apps/v1" ++ nl ++
  "kind: Deployment" ++ nl ++
  "spec:" ++ nl ++
  line4 ++ nl.

Definition patched : string :=
  "apiVersion: apps/v1" ++ nl ++
  "kind: Deployment" ++ nl ++
  "spec:" ++ nl ++
  line4Patched ++ nl.

Definition unifiedDiff : string :=
  "--- Original" ++ nl ++
  "+++ Current" ++ nl ++
  "@@ -4 +4 @@" ++ nl ++
  "-" ++ line4 ++ nl ++
  "+" ++ line4Patched ++ nl.

Definition hunk : Hunk :=
  {| OrigStartLine := 4; OrigLines := 1;
     NewStartLine := 4; NewLines := 1;
     Body := "-" ++ line4 ++ nl ++ "+" ++ line4Patched ++ nl |}.

Definition replicasError : ResultError :=
  {| ContextString := "(root).spec.replicas";
     Type_ := "invalid_type";
     String_ := "spec.replicas: Invalid type. Expected: integer, given: string";
     Details := {[ "expected" := DetailString "integer";
                   "given" := DetailString "string";
                   "field" := DetailString "spec.replicas" ]} |}.

(** A violation whose path does not resolve in the document. *)
Definition strayError : ResultError :=
  {| ContextString := "(root).spec.template";
     Type_ := "required";
     String_ := "spec.template: template is required";
     Details := {[ "property" := DetailString "template" ]} |}.

(** A violation with the detail mapping of the specification. *)
Definition rangeError : ResultError :=
  {| ContextString := "(root).spec.replicas";
     Type_ := "number_lte";
     String_ := "spec.replicas: Must be less than or equal to 5";
     Details := {[ "max" := DetailString "5"; "found" := DetailString "7" ]} |}.

Definition result : ValidationResult :=
  {| FileName := "deploy.yaml"; Kind := "Deployment";
     APIVersion := "apps/v1"; Errors := [replicasError] |}.

Definition lowerAscii (c : ascii) : ascii :=
  let n := Ascii.nat_of_ascii c in
  if ((65 <=? n) && (n <=? 90))%nat then Ascii.ascii_of_nat (n + 32) else c.

Fixpoint lower (s : string) : string :=
  match s with
  | EmptyString => EmptyString
  | String c rest => String (lowerAscii c) (lower rest)
  end.

Definition pathOf (a : CheckRunAnnotation) : string :=
  match AnnPath a with Some p => p | None => EmptyString end.
Definition startOf (a : CheckRunAnnotation) : Z :=
  match StartLine a with Some n => n | None => 0 end.
Definition endOf (a : CheckRunAnnotation) : Z :=
  match EndLine a with Some n => n | None => 0 end.

(** Modelled from the spec: the [Less] of [Annotations] is not among
    the sources; the ordering key is (file path, start line, end
    line), ascending. *)
Definition annotationLe (a b : CheckRunAnnotation) : Prop :=
  match String.compare (pathOf a) (pathOf b) with
  | Lt => True
  | Gt => False
  | Eq => startOf a < startOf b \/
          (startOf a = startOf b /\ endOf a <= endOf b)
  end.

Global Instance annotationLe_dec a b : Decision (annotationLe a b).
Proof. unfold annotationLe. destruct (String.compare _ _); apply _. Defined.

Definition collaborators : Collaborators :=
  {| SchemaLocation := fun schema =>
       "https://raw.githubusercontent.com/" ++ SchemaFork schema ++ "/" ++
       ConfigType schema ++ "-json-schema/master";
     kubeval_Validate := fun g b filename =>
       if decide (b = document) then ([result], None) else ([], None);
     yamlpatch_Apply := fun patch b =>
       match patch with
       | [operation] =>
           if decide (Op operation = "replace" /\
                      Path operation = "/spec/replicas" /\ b = document)
           then Some ("apiVersion: apps/v1" ++ nl ++ "kind: Deployment" ++ nl ++
                      "spec:" ++ nl ++ "  replicas: " ++ Value operation ++ nl)
           else None
       | _ => None
       end;
     GetUnifiedDiffString := fun d =>
       if decide (difflib.A d = difflib.B d) then Some EmptyString
       else if decide (difflib.A d = difflib.SplitLines document /\
                       difflib.B d = difflib.SplitLines patched)
       then Some unifiedDiff else None;
     ParseFileDiff := fun text =>
       if decide (text = unifiedDiff) then Some {| Hunks := [hunk] |} else None;
     ToLower := lower;
     formatCandidate := fun c => "&{bytes:<nil>}";
     sortAnnotations := merge_sort annotationLe;
     rangeKeys := fun m => (map_to_list m).*1 |}.

(** The keys of a [range] in the opposite order. *)
Definition backwards (m : gmap string DetailValue) : list string :=
  rev (map_to_list m).*1.

Definition deployFile : CommitFile :=
  {| Filename := Some "deploy.yaml";
     BlobURL := Some "https://github.com/o/r/blob/abc/deploy.yaml" |}.

Definition withLineNumbers : KubeValidatorConfigSchema :=
  {| Name := ""; Version := "master"; SchemaFork := "garethr";
     ConfigType := "kubernetes"; LineNumbers := true |}.

Definition pinned : KubeValidatorConfigSchema :=
  {| Name := ""; Version := "1.10.0"; SchemaFork := "garethr";
     ConfigType := "kubernetes"; LineNumbers := false |}.

Definition unversioned : KubeValidatorConfigSchema :=
  {| Name := "latest"; Version := ""; SchemaFork := "garethr";
     ConfigType := "kubernetes"; LineNumbers := false |}.

Definition candidate (schemas : list KubeValidatorConfigSchema) : Candidate :=
  setBytes (NewCandidate deployFile schemas) (Some document).

Definition unloaded (schemas : list KubeValidatorConfigSchema) : Candidate :=
  NewCandidate deployFile schemas.

(** The package variables of [kubeval] as the library declares them. *)
Definition initial : KubevalGlobals :=
  {| kubeval_SchemaLocation := "";
     kubeval_Version := "master";
     kubeval_Strict := false;
     kubeval_OpenShift := false |}.

Definition event : CheckSuiteEvent :=
  {| ownerLogin := "o"; repoName := "r"; headSHA := "abc" |}.

End Scenario.

(** ** The rest of the package *)

(** An error made by [errors.Wrap]: the message put in front and the
    text of the cause. *)
Record wrappedError := {
  wrapMessage : string;
  wrapCause : string
}.

(** [err.Error()] of a wrapped error. *)
Definition wrappedText (w : wrappedError) : string :=
  wrapMessage w ++ ": " ++ wrapCause w.

(** The hosting service as the package calls it; an error is given by
    its text. *)
Record Hosting := {
  (** a [github.RepositoryContent] *)
  RepositoryContent : Type;
  (** [Repositories.GetContents(owner, repo, path, ref)] *)
  GetContents : string -> string -> string -> string -> RepositoryContent + string;
  (** [GetContent()] of a file *)
  GetContent : RepositoryContent -> string + string;
  (** [PullRequests.ListFiles(owner, repo, number)] *)
  ListFiles : string -> string -> Z -> list CommitFile + string;
  (** [fmt.Sprintf("%+v", err)] of a wrapped error *)
  formatVerbose : wrappedError -> string
}.

Definition bytesForFilename (H : Hosting) (e : CheckSuiteEvent) (f : string)
    : string + wrappedError :=
  match GetContents H (ownerLogin e) (repoName e) f (headSHA e) with
  | inr err =>
      inr {| wrapMessage := "Couldn't load " ++ f; wrapCause := err |}
  | inl fileToValidate =>
      match GetContent H fileToValidate with
      | inr err =>
          inr {| wrapMessage := "Couldn't load contents of " ++ f;
                 wrapCause := err |}
      | inl contentToValidate => inl contentToValidate
      end
  end.

(** LoadBytes hydrates bytes from GitHub and returns a
    CheckRunAnnotation if an error is encountered; with it, the
    Candidate as the call leaves it. *)
Definition LoadBytes (H : Hosting) (e : CheckSuiteEvent) (c : Candidate)
    : Candidate * option CheckRunAnnotation :=
  match bytesForFilename H e (GetFilename (file c)) with
  | inr err =>
      (c, Some {| AnnPath := Filename (file c);
                  BlobHRef := BlobURL (file c);
                  StartLine := Some 1;
                  EndLine := Some 1;
                  AnnotationLevel := Some "failure";
                  Title := Some ("Error loading " ++ GetFilename (file c));
                  Message := Some (formatVerbose H err);
                  RawDetails := None |})
  | inl b => (setBytes c (Some b), None)
  end.

(** [changedFileList] over the numbers of the pull requests of the
    check suite. *)
Fixpoint rangePullRequests (H : Hosting) (e : CheckSuiteEvent)
    (prs : list Z) (prFiles : list CommitFile) : list CommitFile + wrappedError :=
  match prs with
  | [] => inl prFiles
  | pr :: rest =>
      match ListFiles H (ownerLogin e) (repoName e) pr with
      | inr prListErr =>
          inr {| wrapMessage := "Couldn't list files"; wrapCause := prListErr |}
      | inl files => rangePullRequests H e rest (prFiles ++ files)%list
      end
  end.

Definition changedFileList (H : Hosting) (e : CheckSuiteEvent) (prs : list Z)
    : list CommitFile + wrappedError :=
  rangePullRequests H e prs [].

(** The pointer path of the earlier revision of the Line Localizer. *)
Definition earlierPointerPath (e : ResultError) : string :=
  let dotted := strings.TrimPrefix (ContextString e) "(root)" in
  strings.ReplaceAll dotted "." "/".

(** ** More wording, for comparison *)

(** Whether a byte occurs in a string. *)
Fixpoint hasByte (c : ascii) (s : string) : bool :=
  match s with
  | EmptyString => false
  | String d rest => Ascii.eqb c d || hasByte c rest
  end.

Definition dot : ascii := Ascii.ascii_of_nat 46.
Definition slash : ascii := Ascii.ascii_of_nat 47.

(** The package variables under which the validator is called for each
    schema spec in turn, each call starting from what the one before
    has left. *)
Fixpoint configurations (E : Collaborators) (g : KubevalGlobals)
    (schemas : list KubeValidatorConfigSchema) : list KubevalGlobals :=
  match schemas with
  | [] => []
  | schema :: rest =>
      configure E g schema :: configurations E (configure E g schema) rest
  end.

(** The violations of a list of results, each with its result, in the
    order of the validator. *)
Definition violationsOf (results : list ValidationResult)
    : list (ValidationResult * ResultError) :=
  flat_map (fun result => map (pair result) (Errors result)) results.

(** What every annotation of Validate carries. *)
Definition wellFormedFor (c : Candidate) (a : CheckRunAnnotation) : Prop :=
  AnnPath a = Filename (file c) /\
  BlobHRef a = BlobURL (file c) /\
  AnnotationLevel a = Some "failure" /\
  is_Some (StartLine a) /\ is_Some (EndLine a) /\
  is_Some (Title a) /\ is_Some (Message a).

(** A hosting service for the scenario: one file and one pull request. *)
Definition scenarioHosting : Hosting :=
  {| RepositoryContent := string;
     GetContents := fun owner repo path ref =>
       if decide (path = "deploy.yaml") then inl Scenario.document
       else inr "404 Not Found";
     GetContent := fun content => inl content;
     ListFiles := fun owner repo number =>
       if decide (number = 7) then inl [Scenario.deployFile]
       else inr "404 Not Found";
     formatVerbose := wrappedText |}.

(** The collaborators of the scenario with a validator that cannot
    fetch its schema. *)
Definition failingCollaborators : Collaborators :=
  {| SchemaLocation := SchemaLocation Scenario.collaborators;
     kubeval_Validate := fun g b filename =>
       ([Scenario.result],
        Some (multiError ["Problem loading schema from the network";
                          "Could not read schema from HTTP, response status is 404"]));
     yamlpatch_Apply := yamlpatch_Apply Scenario.collaborators;
     GetUnifiedDiffString := GetUnifiedDiffString Scenario.collaborators;
     ParseFileDiff := ParseFileDiff Scenario.collaborators;
     ToLower := ToLower Scenario.collaborators;
     formatCandidate := formatCandidate Scenario.collaborators;
     sortAnnotations := sortAnnotations Scenario.collaborators;
     rangeKeys := rangeKeys Scenario.collaborators |}.

(** A schema spec whose version has a single component. *)
Definition shortVersion : KubeValidatorConfigSchema :=
  {| Name := ""; Version := "1"; SchemaFork := "garethr";
     ConfigType := "kubernetes"; LineNumbers := false |}.


(** The annotations of a run in which the validator answers each schema
    spec under the package variables paired with it. *)
Fixpoint annotateUnder (E : Collaborators) (c : Candidate)
    (calls : list (KubeValidatorConfigSchema * KubevalGlobals))
    (annotations : Annotations) : option Annotations :=
  match calls with
  | [] => Some annotations
  | (schema, g) :: rest =>
      match callAndAnnotate E c g schema annotations with
      | None => None
      | Some annotations => annotateUnder E c rest annotations
      end
  end.

(** The collaborators of the scenario with a validator whose schemas
    differ between versions: only those of 1.10.0 ask for an integer. *)
Definition versionSensitive : Collaborators :=
  {| SchemaLocation := SchemaLocation Scenario.collaborators;
     kubeval_Validate := fun g b filename =>
       if decide (b = Scenario.document /\ kubeval_Version g = "1.10.0")
       then ([Scenario.result], None) else ([], None);
     yamlpatch_Apply := yamlpatch_Apply Scenario.collaborators;
     GetUnifiedDiffString := GetUnifiedDiffString Scenario.collaborators;
     ParseFileDiff := ParseFileDiff Scenario.collaborators;
     ToLower := ToLower Scenario.collaborators;
     formatCandidate := formatCandidate Scenario.collaborators;
     sortAnnotations := sortAnnotations Scenario.collaborators;
     rangeKeys := rangeKeys Scenario.collaborators |}.


(** * Properties *)

(** ** The order of [sort.Strings] *)

Lemma string_le_compare x y : string_le x y <-> String.compare x y <> Gt.
Proof.
  unfold string_le, String.leb. destruct (String.compare x y); split; congruence.
Qed.

Lemma string_lt_compare x y : string_lt x y <-> String.compare x y = Lt.
Proof.
  unfold string_lt, String.ltb. destruct (String.compare x y); split; congruence.
Qed.

Global Instance string_le_total : Total string_le.
Proof. intros x y. apply String.leb_total. Qed.

Global Instance string_le_antisymm : AntiSymm (=) string_le.
Proof. intros x y. apply String.leb_antisym. Qed.

Lemma compare_as_OT x y : String_as_OT.compare x y = String.compare x y.
Proof.
  revert y. induction x as [|a x IH]; intros [|b y]; simpl;
    first [reflexivity | rewrite IH; reflexivity].
Qed.

Lemma compare_cases x y :
  (x = y /\ String.compare x y = Eq) \/
  (String.compare x y = Lt /\ String.compare y x = Gt) \/
  (String.compare x y = Gt /\ String.compare y x = Lt).
Proof.
  pose proof (String.compare_antisym y x) as Ha.
  destruct (String.compare x y) eqn:Hc; simpl in Ha.
  - left. split; [by apply String.compare_eq_iff|done].
  - right; left. done.
  - right; right. done.
Qed.

Lemma compare_lt_trans x y z :
  String.compare x y = Lt -> String.compare y z = Lt -> String.compare x z = Lt.
Proof.
  rewrite <- !compare_as_OT. apply (StrictOrder_Transitive (R := String_as_OT.lt)).
Qed.

Global Instance string_le_trans : Transitive string_le.
Proof.
  intros x y z Hxy Hyz. apply string_le_compare in Hxy, Hyz.
  apply string_le_compare.
  destruct (compare_cases x y) as [[-> _]|[[Hlt _]|[Hgt _]]]; [done| |done].
  destruct (compare_cases y z) as [[-> _]|[[Hlt' _]|[Hgt' _]]]; [congruence| |done].
  rewrite (compare_lt_trans _ _ _ Hlt Hlt'). done.
Qed.

Lemma string_lt_le_ne x y : string_lt x y <-> string_le x y /\ x <> y.
Proof.
  rewrite string_lt_compare, string_le_compare.
  destruct (compare_cases x y) as [[-> Hc]|[[Hc _]|[Hc _]]]; rewrite Hc.
  - split; [done|]. intros [_ Hne]. done.
  - split; [|done]. intros _. split; [done|]. intros ->.
    destruct (compare_cases y y) as [[_ H]|[[H H']|[H H']]]; congruence.
  - split; [done|]. intros [Hle _]. done.
Qed.

Lemma sort_Strings_sorted keys : StronglySorted string_le (sort_Strings keys).
Proof. apply StronglySorted_merge_sort; apply _. Qed.

Lemma sort_Strings_Permutation keys : sort_Strings keys ≡ₚ keys.
Proof. apply merge_sort_Permutation. Qed.

(** The sorted keys do not depend on the order they were collected in. *)
Lemma sort_Strings_order keys1 keys2 :
  keys1 ≡ₚ keys2 -> sort_Strings keys1 = sort_Strings keys2.
Proof.
  intros Hp. apply (StronglySorted_unique string_le).
  - apply sort_Strings_sorted.
  - apply sort_Strings_sorted.
  - by rewrite !sort_Strings_Permutation.
Qed.

Lemma StronglySorted_strict keys :
  NoDup keys -> StronglySorted string_le keys -> ascending keys.
Proof.
  unfold ascending. induction keys as [|k keys IH]; intros Hnd Hs.
  - constructor.
  - apply NoDup_cons in Hnd as [Hk Hnd]. apply StronglySorted_inv in Hs as [Hs Hall].
    constructor; [by apply IH|].
    rewrite Forall_forall in *. intros x Hx. apply string_lt_le_ne. split.
    + by apply Hall.
    + intros ->. apply Hk. by apply list_elem_of_In.
Qed.

(** ** The detail text *)

Lemma append_nil_r (s : string) : s ++ EmptyString = s.
Proof. induction s as [|a s IH]; [done|]. unfold String.app in *. simpl. by rewrite IH. Qed.

Lemma append_assoc (s1 s2 s3 : string) : (s1 ++ s2) ++ s3 = s1 ++ (s2 ++ s3).
Proof.
  induction s1 as [|a s1 IH]; [done|]. unfold String.app in *. simpl. by rewrite IH.
Qed.

Lemma bullets_fold details keys buffer :
  fold_left
    (fun buffer k => buffer ++ ("* " ++ k ++ ": " ++ fmt_s (details !! k) ++ nl))
    keys buffer
  = buffer ++ bulletList details keys.
Proof.
  revert buffer. induction keys as [|k keys IH]; intros buffer; simpl.
  - by rewrite append_nil_r.
  - rewrite IH. rewrite !append_assoc. reflexivity.
Qed.

Lemma resultErrorDetailString_bullets E e :
  resultErrorDetailString E e
  = bulletList (Details e) (sort_Strings (rangeKeys E (Details e))).
Proof. unfold resultErrorDetailString. by rewrite bullets_fold. Qed.

(** The detail text is the same whatever the order of the [range]. *)
Lemma resultErrorDetailString_order E e :
  rangeVisitsKeys E ->
  resultErrorDetailString E e
  = bulletList (Details e) (sort_Strings (map_to_list (Details e)).*1).
Proof.
  intros HE. rewrite resultErrorDetailString_bullets.
  f_equal. apply sort_Strings_order, HE.
Qed.

(** C7. The raw detail text of a violation is the bullet list, one
    [* key: value] line per key of the detail mapping, over the keys in
    ascending lexicographic order, whatever the order in which the
    mapping was traversed; for the mapping with [max] = 5 and [found] = 7
    the [found] bullet comes before the [max] bullet. *)
Theorem detail_string_sorted_bullets (E : Collaborators) (e : ResultError) :
  rangeVisitsKeys E ->
  (exists keys,
      keys ≡ₚ (map_to_list (Details e)).*1 /\
      ascending keys /\
      resultErrorDetailString E e = bulletList (Details e) keys) /\
  resultErrorDetailString E Scenario.rangeError
  = "* found: 7" ++ nl ++ "* max: 5" ++ nl.
Proof.
  intros HE. split.
  - exists (sort_Strings (rangeKeys E (Details e))). split; [|split].
    + rewrite sort_Strings_Permutation. apply HE.
    + apply StronglySorted_strict; [|apply sort_Strings_sorted].
      rewrite sort_Strings_Permutation, (HE (Details e)).
      apply NoDup_fst_map_to_list.
    + apply resultErrorDetailString_bullets.
  - rewrite resultErrorDetailString_order by done. vm_compute. reflexivity.
Qed.

Lemma detail_string_sorted_bullets_witness :
  resultErrorDetailString
    (withRangeKeys Scenario.collaborators Scenario.backwards) Scenario.rangeError
  = "* found: 7" ++ nl ++ "* max: 5" ++ nl.
Proof.
  refine (proj2 (detail_string_sorted_bullets
                   (withRangeKeys Scenario.collaborators Scenario.backwards)
                   Scenario.rangeError _)).
  intros m. symmetry. apply Permutation_rev.
Defined.

(** ** The final report *)

Lemma conclusion_cases e cs visited anns :
  Conclusion (createFinalCheckRun e cs visited anns) =
    if decide (size cs = 0%nat) then "neutral"
    else if decide (length anns = 0%nat) then "success" else "failure".
Proof.
  unfold createFinalCheckRun.
  destruct (decide (Z.of_nat (size cs) = 0)) as [Hz|Hz];
    destruct (decide (size cs = 0%nat)) as [Hn|Hn]; try lia; [done|].
  simpl. destruct (decide (Z.of_nat (length anns) > 0));
    destruct (decide (length anns = 0%nat)); try lia; done.
Qed.

(** C3, as the code has it. The conclusion is [neutral] exactly when no
    Candidate was checked, [failure] exactly when at least one Candidate
    was checked and at least one annotation exists, and [success] exactly
    when at least one Candidate was checked and no annotation exists;
    the three cases exclude each other and cover every input. *)
Theorem conclusion_by_counts (e : CheckSuiteEvent) (cs : gmap string Candidate)
    (visited : list Candidate) (anns : Annotations) :
  let conclusion := Conclusion (createFinalCheckRun e cs visited anns) in
  (conclusion = "neutral" <-> size cs = 0%nat) /\
  (conclusion = "failure" <-> size cs <> 0%nat /\ (0 < length anns)%nat) /\
  (conclusion = "success" <-> size cs <> 0%nat /\ length anns = 0%nat) /\
  (conclusion = "neutral" \/ conclusion = "failure" \/ conclusion = "success").
Proof.
  simpl. rewrite conclusion_cases.
  destruct (decide (size cs = 0%nat)); [|destruct (decide (length anns = 0%nat))];
    repeat split; intros; try done; try lia; try tauto;
    try (destruct_and?; first [lia | done]); auto.
Qed.

(** C3, as the specification words it, fails: with no Candidate and one
    annotation the conclusion is [neutral], not [failure]. *)
Lemma conclusion_failure_iff_annotations_refuted :
  ~ (Conclusion (createFinalCheckRun Scenario.event ∅ []
                   [noBytesAnnotation Scenario.collaborators (Scenario.unloaded [])])
       = "failure"
     <-> (0 < length [noBytesAnnotation Scenario.collaborators (Scenario.unloaded [])])%nat).
Proof.
  intros [_ H]. specialize (H ltac:(simpl; lia)). vm_compute in H. discriminate H.
Qed.

(** C6. With at least one Candidate, the title is the number of files,
    [file] or [files], [checked,], the number of annotations, and [error]
    or [errors]; the singular is used exactly for a count of one, for
    each count on its own. One file with one error reads
    [1 file checked, 1 error]; two files without errors read
    [2 files checked, 0 errors]. *)
Theorem title_pluralization (e : CheckSuiteEvent) (cs : gmap string Candidate)
    (visited : list Candidate) (anns : Annotations) :
  size cs <> 0%nat ->
  let title := OutputTitle (createFinalCheckRun e cs visited anns) in
  title = pluralTitle (Z.of_nat (size cs)) (Z.of_nat (length anns)) /\
  (size cs = 1%nat /\ length anns = 1%nat -> title = "1 file checked, 1 error") /\
  (size cs = 2%nat /\ length anns = 0%nat -> title = "2 files checked, 0 errors").
Proof.
  intros Hn. simpl.
  assert (OutputTitle (createFinalCheckRun e cs visited anns)
          = pluralTitle (Z.of_nat (size cs)) (Z.of_nat (length anns))) as ->.
  { unfold createFinalCheckRun, pluralTitle.
    destruct (decide (Z.of_nat (size cs) = 0)); [lia|]. simpl.
    destruct (decide (Z.of_nat (size cs) = 1));
      destruct (decide (Z.of_nat (length anns) = 1)); reflexivity. }
  split; [done|]. split; intros [-> ->]; reflexivity.
Qed.

Lemma title_pluralization_witness :
  OutputTitle
    (createFinalCheckRun Scenario.event
       {[ "deploy.yaml" := Scenario.candidate [] ]} [Scenario.candidate []]
       [noBytesAnnotation Scenario.collaborators (Scenario.unloaded [])])
  = "1 file checked, 1 error".
Proof.
  refine (proj1 (proj2 (title_pluralization Scenario.event
                          {[ "deploy.yaml" := Scenario.candidate [] ]}
                          [Scenario.candidate []]
                          [noBytesAnnotation Scenario.collaborators (Scenario.unloaded [])]
                          _)) _).
  - vm_compute. discriminate.
  - split; vm_compute; reflexivity.
Defined.

(** ** The Line Localizer *)

Lemma scanLoop_found tokens line found :
  (scanLoop tokens line found).2 = true <->
  found = true \/
  Exists (fun text => strings.Contains text placeholderString = true) tokens.
Proof.
  revert line found. induction tokens as [|text rest IH]; intros line found; simpl.
  - rewrite Exists_nil. tauto.
  - rewrite Exists_cons.
    destruct (strings.Contains text placeholderString) eqn:Hc; rewrite IH.
    + tauto.
    + split; [tauto|]. intros [?|[?|?]]; [tauto|congruence|tauto].
Qed.

Lemma rangeHunks_here hunk rest :
  hunkHasPlaceholder hunk ->
  rangeHunks (hunk :: rest)
  = (NewStartLine hunk, add32 (NewStartLine hunk) (NewLines hunk)).
Proof.
  unfold hunkHasPlaceholder. intros Hex. simpl.
  destruct (bufio.Scan (Body hunk)) as [tokens err]. simpl in Hex.
  destruct (scanLoop tokens 1 false) as [line found] eqn:Hs.
  assert (found = true) as ->; [|done].
  change found with (line, found).2. rewrite <- Hs.
  apply scanLoop_found. by right.
Qed.

Lemma rangeHunks_next hunk rest :
  ~ hunkHasPlaceholder hunk -> rangeHunks (hunk :: rest) = rangeHunks rest.
Proof.
  unfold hunkHasPlaceholder. intros Hex. simpl.
  destruct (bufio.Scan (Body hunk)) as [tokens err]. simpl in Hex.
  destruct (scanLoop tokens 1 false) as [line found] eqn:Hs.
  destruct found; [|done]. exfalso. apply Hex.
  pose proof (proj1 (scanLoop_found tokens 1 false)) as H.
  rewrite Hs in H. destruct (H eq_refl); [discriminate|done].
Qed.

Lemma rangeHunks_none hunks :
  Forall (fun h => ~ hunkHasPlaceholder h) hunks -> rangeHunks hunks = (1, 1).
Proof.
  induction 1 as [|h hunks Hh _ IH]; [done|]. by rewrite rangeHunks_next.
Qed.

Lemma detectLineNumbersDefault_unfold E b e :
  detectLineNumbersDefault E b e =
  match yamlpatch_Apply E (sentinelPatch e) b with
  | None => (1, 1)
  | Some patchedBytes =>
      match GetUnifiedDiffString E (diffRequest b patchedBytes) with
      | None => (1, 1)
      | Some unifiedDiffString =>
          match ParseFileDiff E unifiedDiffString with
          | None => (1, 1)
          | Some fileDiff => rangeHunks (Hunks fileDiff)
          end
      end
  end.
Proof. reflexivity. Qed.

(** C2. When the patch cannot be applied (the path does not resolve in
    the document), when the diff cannot be generated or parsed, or when
    no hunk holds the placeholder, the Line Localizer returns the range
    (1, 1); it returns a range in every case and has no way to raise. *)
Theorem localizer_falls_back (E : Collaborators) (b : string) (e : ResultError) :
  localizationFails E b e -> detectLineNumbersDefault E b e = (1, 1).
Proof.
  rewrite detectLineNumbersDefault_unfold.
  intros [Hp|p Hp Hd|p u Hp Hd Hf|p u fd Hp Hd Hf Hh]; rewrite Hp; try done;
    rewrite Hd; try done; rewrite Hf; try done.
  by apply rangeHunks_none.
Qed.

Lemma localizer_falls_back_witness :
  detectLineNumbersDefault Scenario.collaborators Scenario.document
    Scenario.strayError = (1, 1).
Proof.
  apply (localizer_falls_back Scenario.collaborators Scenario.document
           Scenario.strayError).
  apply patchFails. vm_compute. reflexivity.
Defined.

(** The range of a replaced line: the start of the hunk and the start
    plus the length of the hunk. *)
Lemma detectLineNumbersDefault_line4 E b e :
  replicasOnLine4 E b e -> detectLineNumbersDefault E b e = (4, 5).
Proof.
  intros [_ (p & u & h & Hp & Hd & Hf & _ & _ & Hs & Hn & Hh)].
  rewrite detectLineNumbersDefault_unfold, Hp, Hd, Hf. simpl Hunks.
  rewrite rangeHunks_here by done. rewrite Hs, Hn. reflexivity.
Qed.

Lemma Scenario_replicasOnLine4 :
  replicasOnLine4 Scenario.collaborators Scenario.document Scenario.replicasError.
Proof.
  split; [vm_compute; reflexivity|].
  exists Scenario.patched, Scenario.unifiedDiff, Scenario.hunk.
  repeat split; try (vm_compute; reflexivity).
  unfold hunkHasPlaceholder. apply Exists_exists.
  exists ("+" ++ Scenario.line4Patched). split; [|vm_compute; reflexivity].
  apply list_elem_of_In. vm_compute. right. left. reflexivity.
Qed.

(** C1, as the specification words it, fails: for the document of the
    scenario, whose [replicas] is on line 4, the Line Localizer does not
    report the range (4, 4). *)
Lemma localizer_line4_range_refuted :
  replicasOnLine4 Scenario.collaborators Scenario.document Scenario.replicasError /\
  detectLineNumbersDefault Scenario.collaborators Scenario.document
    Scenario.replicasError <> (4, 4).
Proof.
  split; [apply Scenario_replicasOnLine4|].
  vm_compute. discriminate.
Qed.

(** ** The loops of Validate *)

(** Where an annotation of one iteration over the schema specs comes
    from. *)
Inductive appendedFor (E : Collaborators) (c : Candidate) (g : KubevalGlobals)
    (schema : KubeValidatorConfigSchema) (a : CheckRunAnnotation) : Prop :=
| fromNoBytes :
    bytes c = None -> a = noBytesAnnotation E c -> appendedFor E c g schema a
| fromInternalError b results err :
    bytes c = Some b ->
    kubeval_Validate E (configure E g schema) b (GetFilename (file c))
      = (results, Some err) ->
    a = internalErrorAnnotation E c schema (schemaNameOf schema) results err ->
    appendedFor E c g schema a
| fromViolation b results result e :
    bytes c = Some b ->
    kubeval_Validate E (configure E g schema) b (GetFilename (file c))
      = (results, None) ->
    result ∈ results -> e ∈ Errors result ->
    violationAnnotation E c b schema (schemaNameOf schema) result e = Some a ->
    appendedFor E c g schema a.

Lemma rangeErrors_appends E c b schema name result errors anns anns' :
  rangeErrors E c b schema name result errors anns = Some anns' ->
  exists new,
    anns' = (anns ++ new)%list /\
    Forall2 (fun e a => violationAnnotation E c b schema name result e = Some a)
            errors new.
Proof.
  revert anns. induction errors as [|e rest IH]; intros anns H; simpl in H.
  - inversion H. exists []. by rewrite app_nil_r.
  - destruct (violationAnnotation E c b schema name result e) as [a|] eqn:Ha; [|done].
    apply IH in H as (new & -> & Hall). exists (a :: new).
    rewrite <- app_assoc. split; [done|]. by constructor.
Qed.

Lemma rangeErrors_total E c b schema name result errors anns :
  Forall (fun e => is_Some (violationMessage E schema result e)) errors ->
  is_Some (rangeErrors E c b schema name result errors anns).
Proof.
  intros Hall. revert anns. induction Hall as [|e rest [m Hm] _ IH]; intros anns; simpl.
  - by eexists.
  - unfold violationAnnotation. rewrite Hm.
    destruct (violationLines E schema b e). apply IH.
Qed.

Lemma rangeResults_appends E c b schema name results anns anns' :
  rangeResults E c b schema name results anns = Some anns' ->
  exists new,
    anns' = (anns ++ new)%list /\
    Forall (fun a => exists result e,
                result ∈ results /\ e ∈ Errors result /\
                violationAnnotation E c b schema name result e = Some a) new.
Proof.
  revert anns. induction results as [|result rest IH]; intros anns H; simpl in H.
  - inversion H. exists []. by rewrite app_nil_r.
  - destruct (rangeErrors E c b schema name result (Errors result) anns)
      as [anns1|] eqn:H1; [|done].
    apply rangeErrors_appends in H1 as (new1 & -> & Hall1).
    apply IH in H as (new2 & -> & Hall2).
    exists (new1 ++ new2)%list. rewrite app_assoc. split; [done|].
    apply Forall_app. split.
    + apply Forall_forall. intros a Ha.
      apply list_elem_of_lookup in Ha as [i Hi].
      destruct (Forall2_lookup_r _ _ _ _ _ Hall1 Hi) as (e & He & Hv).
      exists result, e. split; [by left|]. split; [|done].
      apply list_elem_of_lookup. eauto.
    + eapply Forall_impl; [exact Hall2|]. intros a (r & e & Hr & He & Hv).
      exists r, e. split; [by right|done].
Qed.

Lemma validateSchema_globals E c g schema anns :
  (validateSchema E c g schema anns).1 = configure E g schema.
Proof.
  unfold validateSchema. by destruct (bytes c).
Qed.

Lemma validateSchema_appends E c g schema anns g' anns' :
  validateSchema E c g schema anns = (g', Some anns') ->
  exists new, anns' = (anns ++ new)%list /\ Forall (appendedFor E c g schema) new.
Proof.
  unfold validateSchema, annotateOutcome. destruct (bytes c) as [b|] eqn:Hb.
  - destruct (kubeval_Validate _ _ _ _) as [results [err|]] eqn:Hv.
    + intros [= _ <-]. eexists. split; [done|]. constructor; [|done].
      by eapply fromInternalError.
    + intros [= _ H]. apply rangeResults_appends in H as (new & -> & Hall).
      exists new. split; [done|]. eapply Forall_impl; [exact Hall|].
      intros a (r & e & Hr & He & Ha). by eapply fromViolation.
  - intros [= _ <-]. eexists. split; [done|]. constructor; [|done].
    by apply fromNoBytes.
Qed.

Lemma violationMessage_total E schema result e :
  versionUsable schema -> is_Some (violationMessage E schema result e).
Proof.
  intros Hv. unfold violationMessage, firstTwo.
  destruct (decide (Version schema = "" \/ Version schema = "master")) as [Hu|Hp];
    [by eexists|].
  destruct (decide (2 <= _)%nat) as [H2|H2]; [by eexists|].
  exfalso. unfold versionUsable in Hv. tauto.
Qed.

Lemma rangeResults_total E c b schema name results anns :
  versionUsable schema ->
  is_Some (rangeResults E c b schema name results anns).
Proof.
  intros Hv. revert anns. induction results as [|result rest IH]; intros anns; simpl.
  - by eexists.
  - destruct (rangeErrors_total E c b schema name result (Errors result) anns)
      as [anns1 ->]; [|apply IH].
    apply Forall_forall. intros e _. by apply violationMessage_total.
Qed.

Lemma validateSchema_total E c g schema anns :
  versionUsable schema -> is_Some (validateSchema E c g schema anns).2.
Proof.
  intros Hv. unfold validateSchema, annotateOutcome. destruct (bytes c) as [b|].
  - destruct (kubeval_Validate _ _ _ _) as [results [err|]]; simpl.
    + by eexists.
    + by apply rangeResults_total.
  - by eexists.
Qed.

(** C10. Under a schema spec whose line-number mode is off, the Line
    Localizer is not consulted: the range of a violation is (1, 1), and
    every annotation the iteration for that schema spec appends carries
    the range (1, 1); the iteration does return its annotations whenever
    the version of the schema spec is unset, [master], or of two
    components or more. *)
Theorem line_numbers_off_range (E : Collaborators)
    (schema : KubeValidatorConfigSchema) :
  LineNumbers schema = false ->
  (forall b e, violationLines E schema b e = (1, 1)) /\
  (forall c b name result e a,
      violationAnnotation E c b schema name result e = Some a ->
      lineRangeIs 1 1 a) /\
  (forall c g anns g' anns',
      validateSchema E c g schema anns = (g', Some anns') ->
      exists new, anns' = (anns ++ new)%list /\ Forall (lineRangeIs 1 1) new) /\
  (versionUsable schema ->
   forall c g anns, is_Some (validateSchema E c g schema anns).2).
Proof.
  intros Hoff.
  assert (forall b e, violationLines E schema b e = (1, 1)) as Hlines.
  { intros b e. unfold violationLines. by rewrite Hoff. }
  assert (forall c b name result e a,
             violationAnnotation E c b schema name result e = Some a ->
             lineRangeIs 1 1 a) as Hann.
  { intros c b name result e a. unfold violationAnnotation. rewrite Hlines.
    destruct (violationMessage E schema result e); [|done].
    intros [= <-]. by split. }
  split; [done|]. split; [done|].
  split; [|intros Hv c g anns; by apply validateSchema_total].
  intros c g anns g' anns' H. apply validateSchema_appends in H as (new & -> & Hall).
  exists new. split; [done|]. eapply Forall_impl; [exact Hall|].
  intros a [_ ->|b results err _ _ ->|b results result e _ _ _ _ Ha].
  - by split.
  - unfold internalErrorAnnotation. destruct results; by split.
  - by eapply Hann.
Qed.

Lemma line_numbers_off_range_witness :
  violationLines Scenario.collaborators Scenario.pinned Scenario.document
    Scenario.replicasError = (1, 1).
Proof.
  apply (proj1 (line_numbers_off_range Scenario.collaborators Scenario.pinned
                  ltac:(reflexivity))).
Defined.

(** C1, as the code has it. When the field at [/spec/replicas] is on
    source line 4 (the replace with the placeholder changes that line
    alone), the Line Localizer reports start line 4 and end line 5, the
    start of the hunk plus its length of one line; validating the
    document against one schema spec with line numbers on, the validator
    reporting that one violation, yields exactly one annotation, of
    severity [failure], whose start line is 4 and whose end line is 5. *)
Theorem localizer_line4_range (E : Collaborators) (g : KubevalGlobals)
    (c : Candidate) (b : string) (schema : KubeValidatorConfigSchema)
    (result : ValidationResult) (e : ResultError) :
  replicasOnLine4 E b e ->
  sortRearranges E ->
  bytes c = Some b ->
  schemas c = [schema] ->
  LineNumbers schema = true ->
  kubeval_Validate E (configure E g schema) b (GetFilename (file c))
    = ([result], None) ->
  Errors result = [e] ->
  is_Some (violationMessage E schema result e) ->
  detectLineNumbersDefault E b e = (4, 5) /\
  exists a,
    (Validate E g c).2 = Some [a] /\
    lineRangeIs 4 5 a /\
    AnnotationLevel a = Some "failure".
Proof.
  intros Hline Hsort Hb Hs Hon Hv He [m Hm].
  pose proof (detectLineNumbersDefault_line4 E b e Hline) as Hd.
  split; [done|].
  unfold Validate. rewrite Hs. simpl. unfold validateSchema, annotateOutcome.
  rewrite Hb, Hv. simpl. rewrite He. simpl.
  unfold violationAnnotation, violationLines. rewrite Hon, Hd, Hm. simpl.
  eexists. split.
  - f_equal. apply Permutation_singleton_r, Hsort.
  - by repeat split.
Qed.

Lemma localizer_line4_range_witness :
  exists a,
    (Validate Scenario.collaborators Scenario.initial
       (Scenario.candidate [Scenario.withLineNumbers])).2 = Some [a] /\
    lineRangeIs 4 5 a /\
    AnnotationLevel a = Some "failure".
Proof.
  refine (proj2 (localizer_line4_range Scenario.collaborators Scenario.initial
                   (Scenario.candidate [Scenario.withLineNumbers])
                   Scenario.document Scenario.withLineNumbers
                   Scenario.result Scenario.replicasError
                   Scenario_replicasOnLine4 _ _ _ _ _ _ _)).
  - intros l. apply merge_sort_Permutation.
  - reflexivity.
  - reflexivity.
  - reflexivity.
  - vm_compute. reflexivity.
  - reflexivity.
  - vm_compute. eexists. reflexivity.
Defined.

(** ** The reversal loop *)

Lemma swap_length a i opp : length (swap a i opp) = length a.
Proof.
  unfold swap. destruct (a !! i), (a !! opp); try done.
  by rewrite !length_insert.
Qed.

Lemma swap_lookup (a : list string) i opp j :
  (i < length a)%nat -> (opp < length a)%nat -> i <> opp ->
  swap a i opp !! j =
    if decide (j = i) then a !! opp
    else if decide (j = opp) then a !! i else a !! j.
Proof.
  intros Hi Ho Hne. unfold swap.
  destruct (lookup_lt_is_Some_2 a i Hi) as [x Hx].
  destruct (lookup_lt_is_Some_2 a opp Ho) as [y Hy].
  rewrite Hx, Hy.
  destruct (decide (j = i)) as [->|Hji].
  - rewrite list_lookup_insert_ne by done. by rewrite list_lookup_insert_eq.
  - destruct (decide (j = opp)) as [->|Hjo].
    + rewrite list_lookup_insert_eq; [done|]. by rewrite length_insert.
    + by rewrite !list_lookup_insert_ne.
Qed.

Lemma reverseLoop_length k a : length (reverseLoop k a) = length a.
Proof.
  revert a. induction k as [|i IH]; intros a; simpl; [done|].
  by rewrite IH, swap_length.
Qed.

(** After the iterations [i = k - 1, ..., 0] the first [k] and the last
    [k] elements have changed places, mirrored; the middle is as it
    was. *)
Lemma reverseLoop_lookup k (a : list string) j :
  (2 * k <= length a)%nat ->
  reverseLoop k a !! j =
    if decide (j < k \/ length a - k <= j < length a)%nat
    then a !! (length a - 1 - j)%nat else a !! j.
Proof.
  revert a. induction k as [|i IH]; intros a Hk; simpl.
  - destruct (decide _) as [[?|?]|?]; [lia|lia|done].
  - rewrite IH by (rewrite swap_length; lia). rewrite swap_length.
    destruct (decide (j < i \/ length a - i <= j < length a)%nat) as [H1|H1];
      destruct (decide (j < S i \/ length a - S i <= j < length a)%nat) as [H2|H2];
      rewrite swap_lookup by lia;
      repeat (destruct (decide _)); try lia; try done; f_equal; lia.
Qed.

Lemma reverseSlice_reverse (a : list string) : reverseSlice a = reverse a.
Proof.
  unfold reverseSlice. apply list_eq. intros j.
  pose proof (Nat.div_mod_eq (length a) 2) as Hd.
  pose proof (Nat.mod_upper_bound (length a) 2 ltac:(lia)) as Hm.
  rewrite reverseLoop_lookup by lia.
  destruct (decide (j < length a)%nat) as [Hj|Hj].
  - rewrite reverse_lookup by done.
    destruct (decide _) as [H|H]; [f_equal; lia|].
    assert (j = length a - S j)%nat as <- by lia. done.
  - rewrite (lookup_ge_None_2 (reverse a)) by (rewrite length_reverse; lia).
    destruct (decide _) as [H|H]; [lia|]. apply lookup_ge_None_2. lia.
Qed.

(** ** The message of a violation *)

Lemma violationMessage_cases E schema result e :
  violationMessage E schema result e =
    if decide (Version schema = "" \/ Version schema = "master")
    then Some (String_ e)
    else if decide (2 <= length (strings.Split (Version schema) "."))%nat
    then Some (String_ e ++ "; see " ++
               deepLink E (Version schema) (Kind result) (APIVersion result) ++
               " for more details")
    else None.
Proof.
  unfold violationMessage, firstTwo, deepLink.
  destruct (decide (Version schema = "" \/ _)); [done|].
  destruct (decide (2 <= _)%nat); [|done].
  rewrite reverseSlice_reverse. f_equal.
  rewrite !append_assoc. reflexivity.
Qed.

(** C5. A violation annotation built under a schema spec whose version
    is unset or [master] carries the raw error string of the validator as
    its message. Under any other version it carries the raw error string
    followed by [; see], the deep link and [ for more details], the deep
    link being made of the first two components of the version, the
    lowered kind of the resource, and the segments of the apiVersion
    between slashes, reversed and joined by dashes; the annotation is
    built whenever that version has two components or more. *)
Theorem message_convention (E : Collaborators) (c : Candidate) (b : string)
    (schema : KubeValidatorConfigSchema) (name : string)
    (result : ValidationResult) (e : ResultError) :
  versionUsable schema ->
  exists a,
    violationAnnotation E c b schema name result e = Some a /\
    Message a =
      Some (if decide (Version schema = "" \/ Version schema = "master")
            then String_ e
            else String_ e ++ "; see " ++
                 deepLink E (Version schema) (Kind result) (APIVersion result) ++
                 " for more details").
Proof.
  intros Hv. unfold violationAnnotation.
  destruct (violationLines E schema b e) as [startLine endLine].
  rewrite violationMessage_cases.
  destruct (decide (Version schema = "" \/ Version schema = "master")) as [Hu|Hp].
  - eexists. split; reflexivity.
  - destruct (decide (2 <= _)%nat) as [H2|H2];
      [|exfalso; unfold versionUsable in Hv; tauto].
    eexists. split; reflexivity.
Qed.

Lemma message_convention_witness :
  exists a,
    violationAnnotation Scenario.collaborators
      (Scenario.candidate [Scenario.pinned]) Scenario.document Scenario.pinned
      "1.10.0" Scenario.result Scenario.replicasError = Some a /\
    Message a =
      Some ("spec.replicas: Invalid type. Expected: integer, given: string" ++
            "; see https://kubernetes.io/docs/reference/generated/kubernetes-api/v1.10/#deployment-v1-apps for more details").
Proof.
  destruct (message_convention Scenario.collaborators
              (Scenario.candidate [Scenario.pinned]) Scenario.document
              Scenario.pinned "1.10.0" Scenario.result Scenario.replicasError)
    as (a & Ha & Hm).
  - right. right. vm_compute. lia.
  - exists a. split; [exact Ha|]. rewrite Hm. vm_compute. reflexivity.
Defined.

(** ** A Candidate without bytes *)

Lemma rangeSchemas_noBytes E c g schemas anns :
  bytes c = None ->
  (rangeSchemas E c g schemas anns).2
    = Some (anns ++ replicate (length schemas) (noBytesAnnotation E c))%list /\
  validatorCalls E c g schemas anns = [].
Proof.
  intros Hb. revert g anns. induction schemas as [|schema rest IH]; intros g anns; simpl.
  - by rewrite app_nil_r.
  - unfold validateSchema. rewrite Hb.
    destruct (IH (configure E g schema) (anns ++ [noBytesAnnotation E c])%list)
      as [-> ->].
    by rewrite <- app_assoc.
Qed.

Lemma Validate_annotations E g c :
  (Validate E g c).2 = sortAnnotations E <$> (rangeSchemas E c g (schemas c) []).2.
Proof. unfold Validate. by destruct (rangeSchemas E c g (schemas c) []). Qed.

(** C4, as the code has it. Validate on a Candidate whose bytes were
    never loaded makes no call of the validator and returns one
    annotation [Candidate has no bytes?] for each schema spec of the
    Candidate: exactly one when the Candidate has one schema spec. *)
Theorem no_bytes_annotations (E : Collaborators) (g : KubevalGlobals) (c : Candidate) :
  sortRearranges E ->
  bytes c = None ->
  validatorCalls E c g (schemas c) [] = [] /\
  exists anns,
    (Validate E g c).2 = Some anns /\
    length anns = length (schemas c) /\
    Forall (fun a => a = noBytesAnnotation E c) anns.
Proof.
  intros Hsort Hb.
  destruct (rangeSchemas_noBytes E c g (schemas c) [] Hb) as [Hr Hc].
  split; [done|]. rewrite Validate_annotations, Hr. simpl.
  eexists. split; [done|]. split.
  - by rewrite (Hsort _), length_replicate.
  - rewrite (Hsort _). apply Forall_forall. intros a Ha.
    by apply elem_of_replicate in Ha as [-> _].
Qed.

Lemma no_bytes_annotations_witness :
  exists anns,
    (Validate Scenario.collaborators Scenario.initial
       (Scenario.unloaded [Scenario.pinned])).2 = Some anns /\
    length anns = 1%nat /\
    Forall (fun a => a = noBytesAnnotation Scenario.collaborators
                           (Scenario.unloaded [Scenario.pinned])) anns.
Proof.
  refine (proj2 (no_bytes_annotations Scenario.collaborators Scenario.initial
                   (Scenario.unloaded [Scenario.pinned]) _ _)).
  - intros l. apply merge_sort_Permutation.
  - reflexivity.
Defined.

(** C4, as the specification words it, fails: a Candidate without bytes
    and with two schema specs gets two annotations from Validate, not
    exactly one. *)
Lemma no_bytes_single_annotation_refuted :
  bytes (Scenario.unloaded [Scenario.pinned; Scenario.unversioned]) = None /\
  ~ exists a,
      (Validate Scenario.collaborators Scenario.initial
         (Scenario.unloaded [Scenario.pinned; Scenario.unversioned])).2 = Some [a].
Proof.
  split; [reflexivity|]. intros [a Ha]. vm_compute in Ha. discriminate Ha.
Qed.

(** ** Determinism *)

Section Order.

Variable E : Collaborators.
Variables order1 order2 : gmap string DetailValue -> list string.
Hypothesis visits1 : rangeVisitsKeys (withRangeKeys E order1).
Hypothesis visits2 : rangeVisitsKeys (withRangeKeys E order2).

Let E1 := withRangeKeys E order1.
Let E2 := withRangeKeys E order2.

Lemma detail_same e :
  resultErrorDetailString E1 e = resultErrorDetailString E2 e.
Proof.
  unfold E1, E2. by rewrite !resultErrorDetailString_order.
Qed.

Lemma violationAnnotation_same c b schema name result e :
  violationAnnotation E1 c b schema name result e
  = violationAnnotation E2 c b schema name result e.
Proof.
  unfold violationAnnotation. rewrite detail_same. reflexivity.
Qed.

Lemma rangeErrors_same c b schema name result errors anns :
  rangeErrors E1 c b schema name result errors anns
  = rangeErrors E2 c b schema name result errors anns.
Proof.
  revert anns. induction errors as [|e rest IH]; intros anns; simpl; [done|].
  rewrite violationAnnotation_same.
  destruct (violationAnnotation E2 c b schema name result e); [apply IH|done].
Qed.

Lemma rangeResults_same c b schema name results anns :
  rangeResults E1 c b schema name results anns
  = rangeResults E2 c b schema name results anns.
Proof.
  revert anns. induction results as [|result rest IH]; intros anns; simpl; [done|].
  rewrite rangeErrors_same.
  destruct (rangeErrors E2 c b schema name result (Errors result) anns);
    [apply IH|done].
Qed.

Lemma annotateOutcome_same c b schema name outcome anns :
  annotateOutcome E1 c b schema name outcome anns
  = annotateOutcome E2 c b schema name outcome anns.
Proof.
  destruct outcome as [results [err|]]; simpl; [done|]. apply rangeResults_same.
Qed.

(** Two runs that get the same answers from the validator build the
    same annotations, whatever the package variables and the orders
    of traversal they start from. *)
Lemma rangeSchemas_same c b schemas g1 g2 anns :
  bytes c = Some b ->
  map (fun g => kubeval_Validate E g b (GetFilename (file c)))
      (validatorCalls E1 c g1 schemas anns)
  = map (fun g => kubeval_Validate E g b (GetFilename (file c)))
        (validatorCalls E2 c g2 schemas anns) ->
  (rangeSchemas E1 c g1 schemas anns).2 = (rangeSchemas E2 c g2 schemas anns).2.
Proof.
  intros Hb. revert g1 g2 anns.
  induction schemas as [|schema rest IH]; intros g1 g2 anns; simpl; [done|].
  unfold validateSchema. rewrite Hb. simpl.
  change (kubeval_Validate E1) with (kubeval_Validate E).
  change (kubeval_Validate E2) with (kubeval_Validate E).
  change (configure E1) with (configure E).
  change (configure E2) with (configure E).
  rewrite annotateOutcome_same.
  destruct (annotateOutcome E2 c b schema (schemaNameOf schema)
              (kubeval_Validate E (configure E g1 schema) b (GetFilename (file c)))
              anns) as [anns1|] eqn:H1;
    destruct (annotateOutcome E2 c b schema (schemaNameOf schema)
                (kubeval_Validate E (configure E g2 schema) b (GetFilename (file c)))
                anns) as [anns2|] eqn:H2;
    simpl; intros H; try done; injection H as Hhead Htail;
    rewrite Hhead in H1; rewrite H1 in H2; try done.
  injection H2 as ->. by apply IH.
Qed.

End Order.

(** C8. Two runs of Validate on the same Candidate that receive the same
    results from the validator return the same annotations, byte for
    byte, whatever the order in which either run traverses the detail
    mappings and whatever the package variables either run starts
    from. *)
Theorem Validate_deterministic (E : Collaborators)
    (order1 order2 : gmap string DetailValue -> list string)
    (g1 g2 : KubevalGlobals) (c : Candidate) :
  rangeVisitsKeys (withRangeKeys E order1) ->
  rangeVisitsKeys (withRangeKeys E order2) ->
  validatorResults (withRangeKeys E order1) g1 c
    = validatorResults (withRangeKeys E order2) g2 c ->
  (Validate (withRangeKeys E order1) g1 c).2
    = (Validate (withRangeKeys E order2) g2 c).2.
Proof.
  intros Hv1 Hv2 Hres. rewrite !Validate_annotations.
  change (sortAnnotations (withRangeKeys E order1)) with (sortAnnotations E).
  change (sortAnnotations (withRangeKeys E order2)) with (sortAnnotations E).
  f_equal. unfold validatorResults in Hres.
  destruct (bytes c) as [b|] eqn:Hb.
  - by eapply rangeSchemas_same.
  - destruct (rangeSchemas_noBytes (withRangeKeys E order1) c g1 (schemas c) [] Hb)
      as [-> _].
    destruct (rangeSchemas_noBytes (withRangeKeys E order2) c g2 (schemas c) [] Hb)
      as [-> _].
    reflexivity.
Qed.

Lemma Validate_deterministic_witness :
  (Validate (withRangeKeys Scenario.collaborators (fun m => (map_to_list m).*1))
     Scenario.initial (Scenario.candidate [Scenario.pinned; Scenario.unversioned])).2
  = (Validate (withRangeKeys Scenario.collaborators Scenario.backwards)
       (Validate Scenario.collaborators Scenario.initial
          (Scenario.candidate [Scenario.pinned; Scenario.unversioned])).1
       (Scenario.candidate [Scenario.pinned; Scenario.unversioned])).2.
Proof.
  apply (Validate_deterministic Scenario.collaborators
           (fun m => (map_to_list m).*1) Scenario.backwards).
  - intros m. reflexivity.
  - intros m. symmetry. apply Permutation_rev.
  - vm_compute. reflexivity.
Defined.

(** ** The package variables of the validator *)

(** An iteration is its assignments followed by the call under what
    they have assigned. *)
Lemma validateSchema_phases E c g schema anns :
  validateSchema E c g schema anns
  = (configure E g schema,
     callAndAnnotate E c (configure E g schema) schema anns).
Proof. unfold validateSchema, callAndAnnotate. by destruct (bytes c). Qed.





(** * Further properties of the package *)

(** ** Building and loading a Candidate *)

Lemma NewCandidate_schemas f specs :
  schemas (NewCandidate f specs) =
    match specs with [] => [defaultSchema] | _ :: _ => specs end.
Proof. by destruct specs. Qed.

(** X1. A Candidate from NewCandidate has the schema specs it was given
    or, when given none, the default one alone; its list is never empty
    and its bytes are not loaded, so that Validate on it returns one
    annotation [Candidate has no bytes?] per schema spec and at least
    one. *)
Theorem NewCandidate_then_Validate (E : Collaborators) (g : KubevalGlobals)
    (f : CommitFile) (specs : list KubeValidatorConfigSchema) :
  sortRearranges E ->
  let c := NewCandidate f specs in
  schemas c = (if decide (specs = []) then [defaultSchema] else specs) /\
  schemas c <> [] /\
  exists anns,
    (Validate E g c).2 = Some anns /\
    length anns = Nat.max 1 (length specs) /\
    Forall (fun a => a = noBytesAnnotation E c) anns.
Proof.
  intros Hsort. cbv zeta.
  assert (bytes (NewCandidate f specs) = None) as Hb by reflexivity.
  assert (schemas (NewCandidate f specs)
          = if decide (specs = []) then [defaultSchema] else specs) as Hs.
  { rewrite NewCandidate_schemas. by destruct specs. }
  generalize dependent (NewCandidate f specs). intros c Hb Hs.
  split; [done|]. split.
  { rewrite Hs. by destruct specs. }
  destruct (rangeSchemas_noBytes E c g (schemas c) [] Hb) as [Hr _].
  rewrite Validate_annotations, Hr. simpl. eexists. split; [done|]. split.
  - rewrite (Hsort _), length_replicate, Hs. destruct specs; simpl; lia.
  - rewrite (Hsort _). apply Forall_forall. intros a Ha.
    by apply elem_of_replicate in Ha as [-> _].
Qed.

Lemma NewCandidate_then_Validate_witness :
  exists anns,
    (Validate Scenario.collaborators Scenario.initial
       (NewCandidate Scenario.deployFile [])).2 = Some anns /\
    length anns = 1%nat.
Proof.
  destruct (NewCandidate_then_Validate Scenario.collaborators Scenario.initial
              Scenario.deployFile [])
    as (_ & _ & anns & Hv & Hl & _).
  - intros l. apply merge_sort_Permutation.
  - exists anns. split; [exact Hv|exact Hl].
Defined.

(** X2. LoadBytes either loads or reports, never both: when the content
    of the file is fetched, the Candidate holds it and no annotation is
    returned; when fetching the file or reading its content fails, the
    Candidate is left as it was (bytes it held before are kept) and the
    one annotation returned is a failure on line 1 titled
    [Error loading] with the file name, the wrapped error telling which
    of the two steps failed. *)
Theorem LoadBytes_loads_or_reports (H : Hosting) (e : CheckSuiteEvent) (c : Candidate) :
  let f := GetFilename (file c) in
  (exists b,
      bytesForFilename H e f = inl b /\
      LoadBytes H e c = (setBytes c (Some b), None)) \/
  (exists err a,
      bytesForFilename H e f = inr err /\
      LoadBytes H e c = (c, Some a) /\
      (wrapMessage err = "Couldn't load " ++ f \/
       wrapMessage err = "Couldn't load contents of " ++ f) /\
      lineRangeIs 1 1 a /\
      AnnotationLevel a = Some "failure" /\
      AnnPath a = Filename (file c) /\
      Title a = Some ("Error loading " ++ f) /\
      Message a = Some (formatVerbose H err)).
Proof.
  simpl. unfold LoadBytes.
  destruct (bytesForFilename H e (GetFilename (file c))) as [b|err] eqn:Hb.
  - left. by exists b.
  - right. exists err. eexists. repeat split; try reflexivity.
    unfold bytesForFilename in Hb.
    destruct (GetContents H _ _ _ _) as [content|err1].
    + destruct (GetContent H content) as [b|err2]; [done|].
      right. by inversion Hb.
    + left. by inversion Hb.
Qed.

Lemma rangeSchemas_appends E c specs g anns g' anns' :
  rangeSchemas E c g specs anns = (g', Some anns') ->
  exists new,
    anns' = (anns ++ new)%list /\
    Forall (fun a => exists g0 schema, schema ∈ specs /\ appendedFor E c g0 schema a)
           new.
Proof.
  revert g anns. induction specs as [|schema rest IH]; intros g anns Hr; simpl in Hr.
  - inversion Hr. exists []. by rewrite app_nil_r.
  - destruct (validateSchema E c g schema anns) as [g1 [anns1|]] eqn:Hv; [|done].
    apply validateSchema_appends in Hv as (new1 & -> & Hall1).
    apply IH in Hr as (new2 & -> & Hall2).
    exists (new1 ++ new2)%list. rewrite app_assoc. split; [done|].
    apply Forall_app. split.
    + eapply Forall_impl; [exact Hall1|]. intros a Ha.
      exists g, schema. split; [by left|done].
    + eapply Forall_impl; [exact Hall2|]. intros a (g0 & s0 & Hs0 & Ha).
      exists g0, s0. split; [by right|done].
Qed.

(** Where the annotations of Validate come from. *)
Lemma Validate_origin E g c anns :
  sortRearranges E ->
  (Validate E g c).2 = Some anns ->
  Forall (fun a => exists g0 schema, schema ∈ schemas c /\ appendedFor E c g0 schema a)
         anns.
Proof.
  intros Hsort. rewrite Validate_annotations.
  destruct (rangeSchemas E c g (schemas c) []) as [g' [anns'|]] eqn:Hr; [|done].
  simpl. intros [= <-]. rewrite (Hsort _).
  by apply rangeSchemas_appends in Hr as (new & -> & Hall).
Qed.

Lemma appendedFor_titles E c g schema a :
  appendedFor E c g schema a ->
  match bytes c with
  | None => a = noBytesAnnotation E c
  | Some _ => Title a <> Some "Candidate has no bytes?"
  end.
Proof.
  intros [Hnb ->|b results err Hb _ ->|b results result e Hb _ _ _ Ha].
  - by rewrite Hnb.
  - rewrite Hb. unfold internalErrorAnnotation. destruct results; simpl; discriminate.
  - rewrite Hb. unfold violationAnnotation in Ha.
    destruct (violationLines E schema b e), (violationMessage E schema result e);
      [|done]. inversion Ha. simpl. discriminate.
Qed.

(** X3. A Candidate whose bytes LoadBytes has loaded never gets the
    annotation [Candidate has no bytes?] from Validate, and a Candidate
    from NewCandidate for which LoadBytes has returned an annotation
    gets nothing else from Validate. *)
Theorem LoadBytes_then_Validate (E : Collaborators) (H : Hosting)
    (e : CheckSuiteEvent) (g : KubevalGlobals)
    (f : CommitFile) (specs : list KubeValidatorConfigSchema)
    (anns : Annotations) :
  sortRearranges E ->
  let loaded := LoadBytes H e (NewCandidate f specs) in
  (Validate E g loaded.1).2 = Some anns ->
  match loaded.2 with
  | Some _ => Forall (fun a => a = noBytesAnnotation E loaded.1) anns
  | None => Forall (fun a => Title a <> Some "Candidate has no bytes?") anns
  end.
Proof.
  intros Hsort loaded Hv.
  pose proof (Validate_origin E g loaded.1 anns Hsort Hv) as Hall.
  assert (match loaded.2 with
          | Some _ => bytes loaded.1 = None
          | None => is_Some (bytes loaded.1)
          end) as Hb.
  { unfold loaded, LoadBytes. destruct (bytesForFilename H e _); simpl; eauto. }
  destruct loaded.2.
  - eapply Forall_impl; [exact Hall|]. intros a (g0 & s0 & _ & Ha).
    apply appendedFor_titles in Ha. by rewrite Hb in Ha.
  - destruct Hb as [b Hb]. eapply Forall_impl; [exact Hall|].
    intros a (g0 & s0 & _ & Ha). apply appendedFor_titles in Ha. by rewrite Hb in Ha.
Qed.

Lemma LoadBytes_then_Validate_witness :
  Forall (fun a => Title a <> Some "Candidate has no bytes?")
    [{| AnnPath := Some "deploy.yaml";
        BlobHRef := Some "https://github.com/o/r/blob/abc/deploy.yaml";
        StartLine := Some 4; EndLine := Some 5;
        AnnotationLevel := Some "failure";
        Title := Some "Error validating Deployment against master schema";
        Message := Some "spec.replicas: Invalid type. Expected: integer, given: string";
        RawDetails := Some ("* expected: integer" ++ nl ++
                            "* field: spec.replicas" ++ nl ++
                            "* given: string" ++ nl) |}].
Proof.
  apply (LoadBytes_then_Validate Scenario.collaborators scenarioHosting
           Scenario.event Scenario.initial Scenario.deployFile
           [Scenario.withLineNumbers]).
  - intros l. apply merge_sort_Permutation.
  - vm_compute. reflexivity.
Defined.

(** ** The run of Validate over the schema specs *)

Lemma rangeSchemas_under E c specs g anns :
  (rangeSchemas E c g specs anns).2
  = annotateUnder E c (zip specs (configurations E g specs)) anns.
Proof.
  revert g anns. induction specs as [|schema rest IH]; intros g anns; simpl; [done|].
  rewrite validateSchema_phases.
  destruct (callAndAnnotate E c (configure E g schema) schema anns); [apply IH|done].
Qed.

Lemma rangeSchemas_usable E c specs g anns :
  Forall versionUsable specs ->
  is_Some (rangeSchemas E c g specs anns).2 /\
  (rangeSchemas E c g specs anns).1 = fold_left (configure E) specs g.
Proof.
  intros Hall. revert g anns.
  induction Hall as [|schema rest Hu _ IH]; intros g anns; simpl.
  - split; [by eexists|done].
  - destruct (validateSchema_total E c g schema anns Hu) as [anns1 Ha].
    rewrite validateSchema_phases in *. simpl in Ha. rewrite Ha. apply IH.
Qed.

Lemma configurations_length E g specs :
  length (configurations E g specs) = length specs.
Proof.
  revert g. induction specs as [|schema rest IH]; intros g; simpl; [done|].
  by rewrite IH.
Qed.

(** X4. On a Candidate all of whose schema specs have a version that is
    unset, [master], or of two components or more, Validate returns its
    annotations. They are the ones built, schema spec after schema spec,
    from what the validator answers under the package variables that
    iteration has assigned on top of those the iteration before has
    left, each answer taken once, and then sorted; the package variables
    the run leaves are those of all assignments in turn. *)
Theorem validator_called_per_schema (E : Collaborators) (g : KubevalGlobals)
    (c : Candidate) :
  Forall versionUsable (schemas c) ->
  (Validate E g c).2
    = sortAnnotations E <$>
        annotateUnder E c (zip (schemas c) (configurations E g (schemas c))) [] /\
  is_Some (Validate E g c).2 /\
  (Validate E g c).1 = fold_left (configure E) (schemas c) g.
Proof.
  intros Hall.
  destruct (rangeSchemas_usable E c (schemas c) g [] Hall) as [[anns Hs] Hg].
  rewrite Validate_annotations, <- rangeSchemas_under. split; [done|].
  unfold Validate. destruct (rangeSchemas E c g (schemas c) []) as [g' r].
  simpl in *. subst. split; [by eexists|done].
Qed.

Lemma Scenario_versions_usable :
  Forall versionUsable
    (schemas (Scenario.candidate
                [Scenario.unversioned; Scenario.pinned; Scenario.unversioned])).
Proof.
  change (Forall versionUsable
            [Scenario.unversioned; Scenario.pinned; Scenario.unversioned]).
  constructor; [left; reflexivity|].
  constructor; [right; right; vm_compute; lia|].
  constructor; [left; reflexivity|]. constructor.
Qed.

Lemma validator_called_per_schema_witness :
  let candidate :=
    Scenario.candidate [Scenario.unversioned; Scenario.pinned; Scenario.unversioned] in
  (Validate versionSensitive Scenario.initial candidate).2
    = sortAnnotations versionSensitive <$>
        annotateUnder versionSensitive candidate
          (zip (schemas candidate)
               (configurations versionSensitive Scenario.initial (schemas candidate)))
          [] /\
  is_Some (Validate versionSensitive Scenario.initial candidate).2 /\
  (Validate versionSensitive Scenario.initial candidate).1
    = fold_left (configure versionSensitive) (schemas candidate) Scenario.initial.
Proof.
  exact (validator_called_per_schema versionSensitive Scenario.initial
           (Scenario.candidate
              [Scenario.unversioned; Scenario.pinned; Scenario.unversioned])
           Scenario_versions_usable).
Defined.

Lemma configure_versioned E g1 g2 schema :
  Version schema <> "" -> configure E g1 schema = configure E g2 schema.
Proof. intros Hv. unfold configure. by destruct (decide (Version schema <> "")). Qed.

(** X5. When the first schema spec of a Candidate names a version,
    Validate does not depend on the package variables it starts from:
    the calls of the validator, the annotations and the package
    variables left are the same from any start. *)
Theorem Validate_from_any_start (E : Collaborators) (g1 g2 : KubevalGlobals)
    (c : Candidate) (schema : KubeValidatorConfigSchema)
    (rest : list KubeValidatorConfigSchema) :
  schemas c = schema :: rest ->
  Version schema <> "" ->
  Validate E g1 c = Validate E g2 c /\
  validatorCalls E c g1 (schemas c) [] = validatorCalls E c g2 (schemas c) [].
Proof.
  intros Hs Hv. unfold Validate. rewrite Hs. simpl.
  assert (validateSchema E c g1 schema [] = validateSchema E c g2 schema []) as ->.
  { unfold validateSchema. by rewrite (configure_versioned E g1 g2 schema Hv). }
  by rewrite (configure_versioned E g1 g2 schema Hv).
Qed.

Lemma Validate_from_any_start_witness :
  Validate Scenario.collaborators Scenario.initial
    (Scenario.candidate [Scenario.pinned; Scenario.unversioned])
  = Validate Scenario.collaborators
      (Validate Scenario.collaborators Scenario.initial
         (Scenario.candidate [Scenario.unversioned])).1
      (Scenario.candidate [Scenario.pinned; Scenario.unversioned]).
Proof.
  apply (Validate_from_any_start Scenario.collaborators _ _
           (Scenario.candidate [Scenario.pinned; Scenario.unversioned])
           Scenario.pinned [Scenario.unversioned] eq_refl).
  vm_compute. discriminate.
Defined.

Lemma rangeResults_conforming E c b schema name results anns :
  Forall (fun result => Errors result = []) results ->
  rangeResults E c b schema name results anns = Some anns.
Proof.
  induction 1 as [|result rest Hr _ IH]; simpl; [done|]. by rewrite Hr.
Qed.

Lemma rangeSchemas_conforming E c b specs g anns :
  bytes c = Some b ->
  (forall g, exists results,
      kubeval_Validate E g b (GetFilename (file c)) = (results, None) /\
      Forall (fun result => Errors result = []) results) ->
  (rangeSchemas E c g specs anns).2 = Some anns.
Proof.
  intros Hb Hok. revert g. induction specs as [|schema rest IH]; intros g; simpl; [done|].
  unfold validateSchema, annotateOutcome. rewrite Hb.
  destruct (Hok (configure E g schema)) as (results & -> & Hall).
  rewrite rangeResults_conforming by done. apply IH.
Qed.

(** X6. When the validator finds no violation in the bytes of a
    Candidate and returns no error, under whatever package variables,
    Validate returns the empty list of annotations, also for a schema
    spec whose version could not be turned into a link. *)
Theorem Validate_conforming (E : Collaborators) (g : KubevalGlobals)
    (c : Candidate) (b : string) :
  sortRearranges E ->
  bytes c = Some b ->
  (forall g, exists results,
      kubeval_Validate E g b (GetFilename (file c)) = (results, None) /\
      Forall (fun result => Errors result = []) results) ->
  (Validate E g c).2 = Some [].
Proof.
  intros Hsort Hb Hok.
  rewrite Validate_annotations, (rangeSchemas_conforming E c b) by done.
  simpl. f_equal. apply Permutation_nil_r. apply (Hsort []).
Qed.

Lemma Validate_conforming_witness :
  (Validate Scenario.collaborators Scenario.initial
     (setBytes (Scenario.candidate [Scenario.pinned]) (Some Scenario.patched))).2
  = Some [].
Proof.
  apply (Validate_conforming Scenario.collaborators Scenario.initial
           (setBytes (Scenario.candidate [Scenario.pinned]) (Some Scenario.patched))
           Scenario.patched).
  - intros l. apply merge_sort_Permutation.
  - reflexivity.
  - intros g. exists []. split; [vm_compute; reflexivity|constructor].
Defined.

(** ** What the annotations carry *)

Lemma appendedFor_wellFormed E c g schema a :
  appendedFor E c g schema a -> wellFormedFor c a.
Proof.
  intros [_ ->|b results err _ _ ->|b results result e _ _ _ _ Ha].
  - repeat split; by eexists.
  - unfold internalErrorAnnotation. destruct results; repeat split; by eexists.
  - unfold violationAnnotation in Ha.
    destruct (violationLines E schema b e), (violationMessage E schema result e);
      [|done]. inversion Ha. repeat split; by eexists.
Qed.

(** X7. Every annotation Validate returns, of whichever of the three
    kinds, carries the file name and the blob reference of the
    Candidate, the level [failure], a start line, an end line, a title
    and a message. *)
Theorem Validate_annotations_wellFormed (E : Collaborators) (g : KubevalGlobals)
    (c : Candidate) (anns : Annotations) :
  sortRearranges E ->
  (Validate E g c).2 = Some anns ->
  Forall (wellFormedFor c) anns.
Proof.
  intros Hsort Hv. eapply Forall_impl; [exact (Validate_origin E g c anns Hsort Hv)|].
  intros a (g0 & schema & _ & Ha). by eapply appendedFor_wellFormed.
Qed.

Lemma Validate_annotations_wellFormed_witness :
  Forall (wellFormedFor (Scenario.candidate [Scenario.pinned; Scenario.unversioned]))
    (default []
       (Validate Scenario.collaborators Scenario.initial
          (Scenario.candidate [Scenario.pinned; Scenario.unversioned])).2).
Proof.
  apply (Validate_annotations_wellFormed Scenario.collaborators Scenario.initial).
  - intros l. apply merge_sort_Permutation.
  - vm_compute. reflexivity.
Defined.

(** ** When Validate panics *)

Lemma violationMessage_unusable E schema result e :
  ~ versionUsable schema -> violationMessage E schema result e = None.
Proof.
  intros Hu. rewrite violationMessage_cases. unfold versionUsable in Hu.
  destruct (decide (Version schema = "" \/ Version schema = "master")); [tauto|].
  destruct (decide (2 <= _)%nat); [tauto|done].
Qed.

Lemma rangeResults_unusable E c b schema name results anns :
  ~ versionUsable schema ->
  rangeResults E c b schema name results anns =
    if decide (Forall (fun result => Errors result = []) results)
    then Some anns else None.
Proof.
  intros Hu. induction results as [|result rest IH]; cbn [rangeResults].
  - destruct (decide (Forall _ [])) as [|Hn]; [done|]. by destruct Hn.
  - destruct (Errors result) as [|e errors] eqn:He; cbn [rangeErrors].
    + rewrite IH. destruct (decide (Forall _ rest)) as [Hall|Hall];
        destruct (decide (Forall _ (result :: rest))) as [Hall'|Hall']; try done.
      * destruct Hall'. by constructor.
      * destruct Hall. by inversion Hall'.
    + unfold violationAnnotation. rewrite violationMessage_unusable by done.
      destruct (violationLines E schema b e).
      destruct (decide (Forall _ (result :: rest))) as [Hall'|Hall']; [|done].
      inversion Hall'. congruence.
Qed.

(** X8. One iteration of Validate panics exactly when the Candidate has
    bytes, the validator returns no error but at least one violation,
    and the version of the schema spec is neither unset nor [master]
    and has fewer than two components (the slice of its first two
    components is out of range). *)
Theorem iteration_panics_iff (E : Collaborators) (c : Candidate)
    (g : KubevalGlobals) (schema : KubeValidatorConfigSchema) (anns : Annotations) :
  (validateSchema E c g schema anns).2 = None <->
  exists b results,
    bytes c = Some b /\
    kubeval_Validate E (configure E g schema) b (GetFilename (file c))
      = (results, None) /\
    ~ versionUsable schema /\
    Exists (fun result => Errors result <> []) results.
Proof.
  unfold validateSchema, annotateOutcome. split.
  - destruct (bytes c) as [b|]; [|done].
    destruct (kubeval_Validate _ _ _ _) as [results [err|]] eqn:Hv; [done|].
    cbn [snd]. intros Hr. exists b, results. split; [done|]. split; [done|].
    destruct (decide (versionUsable schema)) as [Hu|Hu].
    + destruct (rangeResults_total E c b schema (schemaNameOf schema) results anns Hu)
        as [x Hx]. congruence.
    + split; [done|]. rewrite rangeResults_unusable in Hr by done.
      destruct (decide (Forall _ results)) as [|Hall]; [done|].
      apply not_Forall_Exists in Hall; [|intros x; apply _].
      eapply Exists_impl; [exact Hall|]. intros x Hx. exact Hx.
  - intros (b & results & -> & -> & Hu & Hex). cbn [snd].
    rewrite rangeResults_unusable by done.
    destruct (decide (Forall _ results)) as [Hall|]; [|done].
    apply Exists_exists in Hex as (r & Hr & Hne).
    rewrite Forall_forall in Hall. destruct Hne. by apply Hall.
Qed.

(** ** When the validator fails *)

Lemma rangeSchemas_failing E c b specs g anns :
  bytes c = Some b ->
  (forall g, exists results err,
      kubeval_Validate E g b (GetFilename (file c)) = (results, Some err)) ->
  exists new,
    (rangeSchemas E c g specs anns).2 = Some (anns ++ new)%list /\
    length new = length specs /\
    Forall (fun a => lineRangeIs 1 1 a /\ RawDetails a = None) new.
Proof.
  intros Hb Hfail. revert g anns.
  induction specs as [|schema rest IH]; intros g anns; simpl.
  - exists []. by rewrite app_nil_r.
  - unfold validateSchema, annotateOutcome. rewrite Hb.
    destruct (Hfail (configure E g schema)) as (results & err & ->).
    destruct (IH (configure E g schema)
                (anns ++ [internalErrorAnnotation E c schema (schemaNameOf schema)
                            results err])%list) as (new & -> & Hlen & Hall).
    eexists (_ :: new). rewrite <- app_assoc. split; [done|]. split; [simpl; lia|].
    constructor; [|done].
    unfold internalErrorAnnotation. by destruct results.
Qed.

(** X9. When every call of the validator returns an error, Validate
    returns exactly one annotation per schema spec, each on line 1 and
    without detail text: the violations a failed call may have returned
    beside its error are left out, and no version of a schema spec makes
    such a run panic. *)
Theorem Validate_validator_failing (E : Collaborators) (g : KubevalGlobals)
    (c : Candidate) (b : string) :
  sortRearranges E ->
  bytes c = Some b ->
  (forall g, exists results err,
      kubeval_Validate E g b (GetFilename (file c)) = (results, Some err)) ->
  exists anns,
    (Validate E g c).2 = Some anns /\
    length anns = length (schemas c) /\
    Forall (fun a => lineRangeIs 1 1 a /\ RawDetails a = None) anns.
Proof.
  intros Hsort Hb Hfail.
  destruct (rangeSchemas_failing E c b (schemas c) g [] Hb Hfail)
    as (new & Hr & Hlen & Hall).
  rewrite Validate_annotations, Hr. simpl. eexists. split; [done|].
  rewrite (Hsort _). done.
Qed.

Lemma Validate_validator_failing_witness :
  exists anns,
    (Validate failingCollaborators Scenario.initial
       (Scenario.candidate [shortVersion; Scenario.pinned])).2 = Some anns /\
    length anns = 2%nat /\
    Forall (fun a => lineRangeIs 1 1 a /\ RawDetails a = None) anns.
Proof.
  apply (Validate_validator_failing failingCollaborators Scenario.initial
           (Scenario.candidate [shortVersion; Scenario.pinned]) Scenario.document).
  - intros l. apply merge_sort_Permutation.
  - reflexivity.
  - intros g. eexists. eexists. reflexivity.
Defined.

(** ** The reversal of the apiVersion segments *)

(** X10. The loop that swaps the elements of the slice of apiVersion
    segments from the middle outwards reverses the slice: no element is
    lost, and doing it twice gives the slice back, for an odd as for an
    even number of segments. *)
Theorem reverse_loop_reverses (a : list string) :
  reverseSlice a = reverse a /\
  length (reverseSlice a) = length a /\
  reverseSlice (reverseSlice a) = a.
Proof.
  split; [apply reverseSlice_reverse|]. split.
  - unfold reverseSlice. apply reverseLoop_length.
  - rewrite !reverseSlice_reverse. apply reverse_involutive.
Qed.

(** ** Splitting and replacing at one byte *)

Lemma cutPrefix_byte c d rest :
  strings.HasPrefix (String d rest) (String c EmptyString) = Ascii.eqb c d.
Proof.
  unfold strings.HasPrefix. simpl.
  destruct (Ascii.eqb c d); [by destruct rest|done].
Qed.

Lemma HasPrefix_nil c : strings.HasPrefix EmptyString (String c EmptyString) = false.
Proof. reflexivity. Qed.

Lemma String_app c s t : String c s ++ t = String c (s ++ t).
Proof. reflexivity. Qed.

Lemma splitFrom_piece c cur a rest :
  hasByte c a = false ->
  strings.splitFrom O cur (a ++ String c rest) (String c EmptyString)
  = (cur ++ a) :: strings.splitFrom O EmptyString rest (String c EmptyString).
Proof.
  revert cur. induction a as [|d a IH]; intros cur Ha.
  - change (EmptyString ++ String c rest) with (String c rest).
    cbn [strings.splitFrom]. rewrite cutPrefix_byte, Ascii.eqb_refl.
    by rewrite append_nil_r.
  - simpl in Ha. apply orb_false_iff in Ha as [Hcd Ha].
    rewrite String_app. cbn [strings.splitFrom]. rewrite cutPrefix_byte, Hcd.
    rewrite IH by done. by rewrite append_assoc.
Qed.

Lemma splitFrom_last c cur a :
  hasByte c a = false ->
  strings.splitFrom O cur a (String c EmptyString) = [cur ++ a].
Proof.
  revert cur. induction a as [|d a IH]; intros cur Ha.
  - simpl. by rewrite append_nil_r.
  - simpl in Ha. apply orb_false_iff in Ha as [Hcd Ha].
    cbn [strings.splitFrom]. rewrite cutPrefix_byte, Hcd.
    rewrite IH by done. by rewrite append_assoc.
Qed.

Lemma Split_piece c a rest :
  hasByte c a = false ->
  strings.Split (a ++ String c rest) (String c EmptyString)
  = a :: strings.Split rest (String c EmptyString).
Proof. intros Ha. unfold strings.Split. by rewrite splitFrom_piece. Qed.

Lemma Split_last c a :
  hasByte c a = false -> strings.Split a (String c EmptyString) = [a].
Proof. intros Ha. unfold strings.Split. by rewrite splitFrom_last. Qed.

Lemma hasByte_app c a b : hasByte c (a ++ b) = hasByte c a || hasByte c b.
Proof.
  induction a as [|d a IH]; [done|]. rewrite String_app. simpl.
  by rewrite IH, orb_assoc.
Qed.

Lemma replaceFrom_app c d a b :
  strings.replaceFrom O (a ++ b) (String c EmptyString) (String d EmptyString)
  = strings.replaceFrom O a (String c EmptyString) (String d EmptyString) ++
    strings.replaceFrom O b (String c EmptyString) (String d EmptyString).
Proof.
  induction a as [|x a IH]; [done|].
  rewrite String_app. cbn [strings.replaceFrom]. rewrite !cutPrefix_byte.
  destruct (Ascii.eqb c x); cbn [String.length Nat.pred]; rewrite IH; reflexivity.
Qed.

Lemma replaceFrom_same c d a :
  hasByte c a = false ->
  strings.replaceFrom O a (String c EmptyString) (String d EmptyString) = a.
Proof.
  induction a as [|x a IH]; intros Ha; [done|].
  simpl in Ha. apply orb_false_iff in Ha as [Hcx Ha].
  cbn [strings.replaceFrom]. rewrite cutPrefix_byte, Hcx. by rewrite IH.
Qed.

Lemma replaceFrom_clean c d a :
  c <> d ->
  hasByte c (strings.replaceFrom O a (String c EmptyString) (String d EmptyString))
  = false.
Proof.
  intros Hne. induction a as [|x a IH]; [done|].
  cbn [strings.replaceFrom]. rewrite cutPrefix_byte.
  destruct (Ascii.eqb c x) eqn:Hcx; cbn [String.length Nat.pred].
  - change (String d EmptyString ++ ?x) with (String d x).
    simpl. rewrite IH.
    destruct (Ascii.eqb_spec c d); [done|]. reflexivity.
  - simpl. by rewrite Hcx, IH.
Qed.

Lemma ReplaceAll_Join c d segs :
  Forall (fun s => hasByte c s = false) segs ->
  strings.ReplaceAll (strings.Join segs (String c EmptyString))
    (String c EmptyString) (String d EmptyString)
  = strings.Join segs (String d EmptyString).
Proof.
  unfold strings.ReplaceAll. induction 1 as [|s rest Hs Hall IH]; [done|].
  destruct rest as [|s' rest].
  - simpl. by apply replaceFrom_same.
  - change (strings.Join (s :: s' :: rest) (String c EmptyString))
      with (s ++ String c EmptyString ++ strings.Join (s' :: rest) (String c EmptyString)).
    change (strings.Join (s :: s' :: rest) (String d EmptyString))
      with (s ++ String d EmptyString ++ strings.Join (s' :: rest) (String d EmptyString)).
    rewrite !replaceFrom_app, IH, replaceFrom_same by done.
    f_equal. f_equal. cbn [strings.replaceFrom]. by rewrite cutPrefix_byte, Ascii.eqb_refl.
Qed.

(** ** The shape of the deep link *)

(** X11. For a schema spec pinned to a version [major.minor.patch] and
    a resource whose apiVersion is [group/version], the message of a
    violation is the raw error string followed by the link to
    [.../kubernetes-api/v<major>.<minor>/#<kind>-<version>-<group>],
    with the kind in lower case: the patch component is dropped and
    group and version change places. *)
Theorem deep_link_shape (E : Collaborators) (schema : KubeValidatorConfigSchema)
    (result : ValidationResult) (e : ResultError)
    (major minor patch group version : string) :
  hasByte dot major = false ->
  hasByte dot minor = false ->
  hasByte slash group = false ->
  hasByte slash version = false ->
  Version schema = major ++ "." ++ minor ++ "." ++ patch ->
  APIVersion result = group ++ "/" ++ version ->
  violationMessage E schema result e
  = Some (String_ e ++ "; see " ++ docsLink ++ major ++ "." ++ minor ++
          "/#" ++ ToLower E (Kind result) ++ "-" ++ version ++ "-" ++ group ++
          " for more details").
Proof.
  intros Hmajor Hminor Hgroup Hversion Hv Ha.
  assert (hasByte dot (Version schema) = true) as Hdot.
  { rewrite Hv, hasByte_app.
    change ("." ++ minor ++ "." ++ patch) with (String dot (minor ++ "." ++ patch)).
    apply orb_true_iff. right. reflexivity. }
  rewrite violationMessage_cases.
  destruct (decide (Version schema = "" \/ Version schema = "master")) as [[H0|H0]|_].
  { rewrite H0 in Hdot. discriminate Hdot. }
  { rewrite H0 in Hdot. discriminate Hdot. }
  assert (strings.Split (Version schema) "."
          = major :: minor :: strings.Split patch ".") as Hsplit.
  { rewrite Hv.
    change ("." ++ minor ++ "." ++ patch) with (String dot (minor ++ String dot patch)).
    rewrite (Split_piece dot major) by done. by rewrite (Split_piece dot minor). }
  assert (strings.Split (APIVersion result) "/" = [group; version]) as Hapi.
  { rewrite Ha. change ("/" ++ version) with (String slash version).
    rewrite (Split_piece slash group) by done. by rewrite (Split_last slash version). }
  unfold deepLink. rewrite Hsplit, Hapi.
  destruct (decide (2 <= _)%nat) as [_|Hn]; [|simpl in Hn; lia].
  f_equal. cbn [take reverse rev_append strings.Join].
  rewrite !append_assoc. reflexivity.
Qed.

Lemma deep_link_shape_witness :
  violationMessage Scenario.collaborators Scenario.pinned Scenario.result
    Scenario.replicasError
  = Some ("spec.replicas: Invalid type. Expected: integer, given: string; see https://kubernetes.io/docs/reference/generated/kubernetes-api/v1.10/#deployment-v1-apps for more details").
Proof.
  apply (deep_link_shape Scenario.collaborators Scenario.pinned Scenario.result
           Scenario.replicasError "1" "10" "0" "apps" "v1");
    reflexivity.
Defined.

(** ** The pointer path *)

(** X12. For a violation whose context is [(root)] followed by the
    dotted names of nested keys, none of them holding a dot, the pointer
    path is those names behind slashes, and the earlier revision of the
    Line Localizer computes the same path; whatever the context, the
    pointer path holds no dot. *)
Theorem pointer_path_of_segments (e : ResultError) (segs : list string) :
  ContextString e = "(root)." ++ strings.Join segs "." ->
  Forall (fun s => hasByte dot s = false) segs ->
  pointerPath e = "/" ++ strings.Join segs "/" /\
  earlierPointerPath e = pointerPath e /\
  forall e', hasByte dot (pointerPath e') = false.
Proof.
  intros Hc Hsegs.
  assert (forall t, strings.TrimPrefix ("(root)." ++ t) "(root)." = t) as Htrim.
  { intros t. unfold strings.TrimPrefix. by destruct t. }
  assert (forall t, strings.TrimPrefix ("(root)." ++ t) "(root)" = "." ++ t) as Htrim'.
  { intros t. reflexivity. }
  assert (pointerPath e = "/" ++ strings.Join segs "/") as Hp.
  { unfold pointerPath. rewrite Hc, Htrim. unfold strings.ReplaceAll.
    change (strings.replaceFrom 0 ("." ++ strings.Join segs ".") "." "/")
      with (strings.replaceFrom 0
              (String dot EmptyString ++ strings.Join segs (String dot EmptyString))
              (String dot EmptyString) (String slash EmptyString)).
    rewrite replaceFrom_app.
    pose proof (ReplaceAll_Join dot slash segs Hsegs) as Hj.
    unfold strings.ReplaceAll in Hj. rewrite Hj. reflexivity. }
  split; [done|]. split.
  - unfold earlierPointerPath, pointerPath. by rewrite Hc, Htrim, Htrim'.
  - intros e'. unfold pointerPath, strings.ReplaceAll.
    apply (replaceFrom_clean dot slash). discriminate.
Qed.

Lemma pointer_path_of_segments_witness :
  pointerPath Scenario.replicasError = "/spec/replicas".
Proof.
  apply (pointer_path_of_segments Scenario.replicasError ["spec"; "replicas"]).
  - reflexivity.
  - repeat constructor.
Defined.

(** ** The hunk the range is taken from *)

(** X13. When patch, diff and parse succeed, the Line Localizer takes
    the range from the first hunk that holds the placeholder, however
    many hunks follow: its start is the new start line of that hunk and
    its end is start plus the number of new lines, so that start is at
    most end whenever that sum stays inside the 32 bits of the
    addition. *)
Theorem localizer_first_matching_hunk (E : Collaborators) (b : string)
    (e : ResultError) (patchedBytes unifiedDiffString : string)
    (fileDiff : FileDiff) (before after : list Hunk) (hunk : Hunk) :
  yamlpatch_Apply E (sentinelPatch e) b = Some patchedBytes ->
  GetUnifiedDiffString E (diffRequest b patchedBytes) = Some unifiedDiffString ->
  ParseFileDiff E unifiedDiffString = Some fileDiff ->
  Hunks fileDiff = (before ++ hunk :: after)%list ->
  Forall (fun h => ~ hunkHasPlaceholder h) before ->
  hunkHasPlaceholder hunk ->
  detectLineNumbersDefault E b e
    = (NewStartLine hunk, add32 (NewStartLine hunk) (NewLines hunk)) /\
  (0 <= NewLines hunk ->
   - 2 ^ 31 <= NewStartLine hunk + NewLines hunk < 2 ^ 31 ->
   (detectLineNumbersDefault E b e).1 <= (detectLineNumbersDefault E b e).2).
Proof.
  intros Hp Hd Hf Hh Hbefore Hhunk.
  assert (detectLineNumbersDefault E b e
          = (NewStartLine hunk, add32 (NewStartLine hunk) (NewLines hunk))) as ->.
  { rewrite detectLineNumbersDefault_unfold, Hp, Hd, Hf, Hh.
    clear Hh. induction Hbefore as [|h rest Hn _ IH]; simpl app.
    - by apply rangeHunks_here.
    - by rewrite rangeHunks_next. }
  split; [done|]. intros Hlines Hsum. simpl. unfold add32.
  rewrite Z.mod_small by lia. lia.
Qed.

Lemma localizer_first_matching_hunk_witness :
  detectLineNumbersDefault Scenario.collaborators Scenario.document
    Scenario.replicasError = (4, 5).
Proof.
  refine (proj1 (localizer_first_matching_hunk Scenario.collaborators
                   Scenario.document Scenario.replicasError Scenario.patched
                   Scenario.unifiedDiff {| Hunks := [Scenario.hunk] |}
                   [] [] Scenario.hunk _ _ _ _ _ _)).
  - vm_compute. reflexivity.
  - vm_compute. reflexivity.
  - vm_compute. reflexivity.
  - reflexivity.
  - constructor.
  - apply Exists_cons_tl, Exists_cons_hd. vm_compute. reflexivity.
Defined.

(** ** The files of the pull requests *)

Lemma rangePullRequests_all H e prs lists prFiles :
  Forall2 (fun pr files => ListFiles H (ownerLogin e) (repoName e) pr = inl files)
          prs lists ->
  rangePullRequests H e prs prFiles = inl (prFiles ++ concat lists)%list.
Proof.
  intros Hall. revert prFiles.
  induction Hall as [|pr files prs lists Hpr _ IH]; intros prFiles; simpl.
  - by rewrite app_nil_r.
  - rewrite Hpr, IH. by rewrite app_assoc.
Qed.

(** X14. changedFileList is all or nothing. When the files of every
    pull request can be listed, it returns them all, pull request after
    pull request, a file of two pull requests twice. When the listing of
    one pull request fails, it returns no file at all, the error
    [Couldn't list files] around that failure, and the pull requests
    behind it are not asked. *)
Theorem changedFileList_all_or_nothing (H : Hosting) (e : CheckSuiteEvent)
    (prs : list Z) (lists : list (list CommitFile)) :
  Forall2 (fun pr files => ListFiles H (ownerLogin e) (repoName e) pr = inl files)
          prs lists ->
  changedFileList H e prs = inl (concat lists) /\
  forall pr err later,
    ListFiles H (ownerLogin e) (repoName e) pr = inr err ->
    changedFileList H e (prs ++ pr :: later)
    = inr {| wrapMessage := "Couldn't list files"; wrapCause := err |}.
Proof.
  intros Hall. split.
  - unfold changedFileList. by rewrite (rangePullRequests_all H e prs lists).
  - intros pr err later Hpr. unfold changedFileList. generalize (@nil CommitFile).
    induction Hall as [|pr0 files prs lists Hpr0 _ IH]; intros prFiles; simpl.
    + by rewrite Hpr.
    + rewrite Hpr0. apply IH.
Qed.

Lemma changedFileList_all_or_nothing_witness :
  changedFileList scenarioHosting Scenario.event [7; 7]
    = inl [Scenario.deployFile; Scenario.deployFile] /\
  changedFileList scenarioHosting Scenario.event [7; 7; 8; 7]
    = inr {| wrapMessage := "Couldn't list files"; wrapCause := "404 Not Found" |}.
Proof.
  destruct (changedFileList_all_or_nothing scenarioHosting Scenario.event [7; 7]
              [[Scenario.deployFile]; [Scenario.deployFile]]) as [Hall Hfail].
  - repeat constructor.
  - split; [exact Hall|]. apply (Hfail 8 "404 Not Found" [7]). reflexivity.
Defined.

(** ** The annotations of one answer of the validator *)

Lemma rangeResults_violations E c b schema name results anns anns' :
  rangeResults E c b schema name results anns = Some anns' ->
  exists new,
    anns' = (anns ++ new)%list /\
    Forall2 (fun v a => violationAnnotation E c b schema name v.1 v.2 = Some a)
            (violationsOf results) new.
Proof.
  revert anns. induction results as [|result rest IH]; intros anns Hr; simpl in Hr.
  - inversion Hr. exists []. rewrite app_nil_r. split; [done|]. constructor.
  - destruct (rangeErrors E c b schema name result (Errors result) anns)
      as [anns1|] eqn:H1; [|done].
    apply rangeErrors_appends in H1 as (new1 & -> & Hall1).
    apply IH in Hr as (new2 & -> & Hall2).
    exists (new1 ++ new2)%list. rewrite app_assoc. split; [done|].
    unfold violationsOf. simpl. apply Forall2_app; [|done].
    clear -Hall1. induction Hall1; simpl; by constructor.
Qed.

(** X15. When the validator returns results without an error and the
    version of the schema spec allows the link, the iteration appends
    exactly one annotation for each violation of each result, in the
    order of the validator, behind the annotations of the iterations
    before, which it leaves as they are. *)
Theorem iteration_annotates_each_violation (E : Collaborators) (c : Candidate)
    (b : string) (g : KubevalGlobals) (schema : KubeValidatorConfigSchema)
    (results : list ValidationResult) (anns : Annotations) :
  bytes c = Some b ->
  kubeval_Validate E (configure E g schema) b (GetFilename (file c))
    = (results, None) ->
  versionUsable schema ->
  exists new,
    (validateSchema E c g schema anns).2 = Some (anns ++ new)%list /\
    length new = length (violationsOf results) /\
    Forall2 (fun v a =>
               violationAnnotation E c b schema (schemaNameOf schema) v.1 v.2 = Some a)
            (violationsOf results) new.
Proof.
  intros Hb Hv Hu. unfold validateSchema, annotateOutcome. rewrite Hb, Hv. simpl.
  destruct (rangeResults_total E c b schema (schemaNameOf schema) results anns Hu)
    as [anns' Hr].
  rewrite Hr. apply rangeResults_violations in Hr as (new & -> & Hall).
  exists new. split; [done|]. split; [|done].
  symmetry. by eapply Forall2_length.
Qed.

Lemma iteration_annotates_each_violation_witness :
  exists new,
    (validateSchema Scenario.collaborators (Scenario.candidate [Scenario.pinned])
       Scenario.initial Scenario.pinned []).2 = Some new /\
    length new = 1%nat.
Proof.
  destruct (iteration_annotates_each_violation Scenario.collaborators
              (Scenario.candidate [Scenario.pinned]) Scenario.document
              Scenario.initial Scenario.pinned [Scenario.result] [])
    as (new & Hv & Hl & _).
  - reflexivity.
  - vm_compute. reflexivity.
  - right. right. vm_compute. lia.
  - exists new. split; [exact Hv|exact Hl].
Defined.
